(** * fastETL: bulk copy, key-interval copy, retry and incremental sync

    A shallow embedding of [custom_functions/fast_etl.py].  The Python
    functions talk to two databases through DB-API cursors and Airflow
    hooks; here every such call is a step of a small state-and-exception
    monad over a [world] that holds the two databases, logs each call in
    a chronological [trace], and lets any call raise according to a
    fault oracle.  Loops are bounded by a fuel argument; the theorems
    show how much fuel is enough. *)

From Stdlib Require Import ZArith List String Ascii Bool Lia Arith DecimalString Permutation.
Import ListNotations.
Open Scope string_scope.
Open Scope list_scope.

Infix "+++" := String.append (right associativity, at level 60).

(* ================================================================= *)
(** ** Values, rows and strings *)

(** [datetime.datetime]: the fields [strftime] reads. *)
Record datetime := mkDatetime {
  year : Z; month : Z; day : Z;
  hour : Z; minute : Z; second : Z; microsecond : Z }.

(** What a cell of a result row can hold. *)
Inductive value :=
| VNull
| VInt (z : Z)
| VStr (s : string)
| VDatetime (d : datetime).

(** A table row: the value of the key column and the other cells. *)
Record row := mkRow { row_key : Z; row_cells : list value }.

Definition dquote : string := String (ascii_of_nat 34) "".
Definition nl : string := String (ascii_of_nat 10) "".

(** Python's [sep.join(xs)]. *)
Definition join (sep : string) (xs : list string) : string := String.concat sep xs.

(** Python's [s.count('.')]. *)
Fixpoint count_dots (s : string) : nat :=
  match s with
  | EmptyString => 0
  | String c s' => (if Ascii.eqb c "."%char then 1 else 0) + count_dots s'
  end.

(** Python's [str(n)] for an [int]. *)
Definition str_of_Z (z : Z) : string := NilZero.string_of_int (Z.to_int z).

Definition digit (z : Z) : ascii := ascii_of_nat (48 + Z.to_nat (z mod 10)).

(** Decimal rendering on exactly [width] digits, zero padded
    ([%m], [%d], [%H], [%M], [%S], [%f] and [%Y] of [strftime]). *)
Fixpoint pad (width : nat) (z : Z) : string :=
  match width with
  | O => ""
  | S w => pad w (z / 10) +++ String (digit z) ""
  end.

(** [d.strftime('%Y-%m-%d %H:%M:%S')] *)
Definition strftime_S (d : datetime) : string :=
  pad 4 (year d) +++ "-" +++ pad 2 (month d) +++ "-" +++ pad 2 (day d) +++ " " +++
  pad 2 (hour d) +++ ":" +++ pad 2 (minute d) +++ ":" +++ pad 2 (second d).

(** [d.strftime('%Y-%m-%d %H:%M:%S.%f')] *)
Definition strftime_f (d : datetime) : string :=
  strftime_S d +++ "." +++ pad 6 (microsecond d).

(** Python's [s[:-3]]. *)
Definition drop_last3 (s : string) : string := substring 0 (String.length s - 3) s.

(** Python's [str(v)] on what [MAX(...)] can return. *)
Definition py_str (v : value) : string :=
  match v with
  | VNull => "None"
  | VInt z => str_of_Z z
  | VStr s => s
  | VDatetime d =>
      if (microsecond d =? 0)%Z then strftime_S d else strftime_f d
  end.

(* ================================================================= *)
(** ** The world: two databases, a fault oracle and a trace *)

Inductive provider := MSSQL | PG | MYSQL.

Inductive conn_type := mssql | postgres | other_conn.

(** Where a call goes: one of the two databases, or the process itself
    ([time.sleep]). *)
Inductive side := Source | Destination | Host.

(** A database call with its arguments (a fetch also shows its result). *)
Inductive call :=
| Connect
| Execute (sql : string) (params : list Z)
| Fetchmany (size : nat) (result : list row)
| Fetchall (result : list row)
| Executemany (sql : string) (rows : list row)
| Commit
| GetFirst (sql : string)
| GetRecords (sql : string)
| Run (sql : string)
| Sleep (seconds : Z).

(** One entry of the trace: the source line of the call, the database
    it goes to, the call, and whether it returned ([true]) or raised. *)
Record event := mkEv {
  ev_line : nat; ev_side : side; ev_call : call; ev_ok : bool }.

Record world := mkWorld {
  (** rows the source answers to the job's SELECT *)
  src_rows : list row;
  (** result set of [source_cur] not fetched yet *)
  src_cursor : list row;
  (** column names of the destination table *)
  dst_columns : list string;
  (** [conn_type] of the destination connection in the registry *)
  dst_conn_type : conn_type;
  (** destination table as the open transaction sees it *)
  dst_visible : list row;
  (** destination table as committed *)
  dst_committed : list row;
  (** first column of the first row a hook's [get_first] gets for a statement *)
  hook_first : side -> string -> value;
  (** first column of the rows a hook's [get_records] gets for a statement *)
  hook_records : side -> string -> list Z;
  (** [fault l t]: the call at source line [l] raises when it is call number [t] *)
  fault : nat -> nat -> bool;
  (** [now t]: wall clock, in seconds, when [t] calls have been made *)
  now : nat -> Z;
  (** the calls made so far, oldest first *)
  trace : list event }.

Definition set_cursor (c : list row) (w : world) : world :=
  mkWorld (src_rows w) c (dst_columns w) (dst_conn_type w) (dst_visible w)
          (dst_committed w) (hook_first w) (hook_records w) (fault w) (now w) (trace w).

Definition set_visible (v : list row) (w : world) : world :=
  mkWorld (src_rows w) (src_cursor w) (dst_columns w) (dst_conn_type w) v
          (dst_committed w) (hook_first w) (hook_records w) (fault w) (now w) (trace w).

Definition set_committed (c : list row) (w : world) : world :=
  mkWorld (src_rows w) (src_cursor w) (dst_columns w) (dst_conn_type w) (dst_visible w)
          c (hook_first w) (hook_records w) (fault w) (now w) (trace w).

Definition log (e : event) (w : world) : world :=
  mkWorld (src_rows w) (src_cursor w) (dst_columns w) (dst_conn_type w) (dst_visible w)
          (dst_committed w) (hook_first w) (hook_records w) (fault w) (now w) (trace w ++ [e]).

(** Number of the next call. *)
Definition clock (w : world) : nat := List.length (trace w).

(** [COALESCE(MAX(key), 0)] over a table. *)
Definition max_key (rows : list row) : Z :=
  match rows with
  | [] => 0%Z
  | r :: rs => fold_left Z.max (map row_key rs) (row_key r)
  end.

(** [key BETWEEN b AND e] *)
Definition between (b e : Z) (r : row) : bool :=
  ((b <=? row_key r) && (row_key r <=? e))%Z.

(** What the source answers to the job's SELECT: with two bound
    parameters the rows whose key lies between them, else every row. *)
Definition src_answer (w : world) (params : list Z) : list row :=
  match params with
  | [b; e] => filter (between b e) (src_rows w)
  | _ => src_rows w
  end.

(* ================================================================= *)
(** ** The monad *)

Inductive outcome (A : Type) :=
| Val (a : A)              (* returned *)
| Exc (msg : string)       (* raised *)
| OutOfFuel.               (* loop bound of the model exhausted *)
Arguments Val {A} a.
Arguments Exc {A} msg.
Arguments OutOfFuel {A}.

Definition M (A : Type) : Type := world -> outcome A * world.

Definition ret {A} (a : A) : M A := fun w => (Val a, w).

Definition raise {A} (msg : string) : M A := fun w => (Exc msg, w).

Definition out_of_fuel {A} : M A := fun w => (OutOfFuel, w).

Definition bind {A B} (m : M A) (k : A -> M B) : M B :=
  fun w =>
    match m w with
    | (Val a, w') => k a w'
    | (Exc msg, w') => (Exc msg, w')
    | (OutOfFuel, w') => (OutOfFuel, w')
    end.

Notation "x <- m ;; k" := (bind m (fun x => k))
  (at level 61, m at next level, right associativity).
Notation "m ;;; k" := (bind m (fun _ => k))
  (at level 61, right associativity).

(** [try: m  except Exception as e: ...]: the exception becomes a value. *)
Definition try {A} (m : M A) : M (string + A) :=
  fun w =>
    match m w with
    | (Val a, w') => (Val (inr a), w')
    | (Exc msg, w') => (Val (inl msg), w')
    | (OutOfFuel, w') => (OutOfFuel, w')
    end.

(** [assert cond, msg] *)
Definition assert (cond : bool) (msg : string) : M unit :=
  if cond then ret tt else raise msg.

(** A database call at source line [l]: it raises if the oracle says
    so, else it has its effect; either way it is logged. *)
Definition db_call {A} (l : nat) (s : side) (c : call)
    (effect : world -> A * world) : M A :=
  fun w =>
    if fault w l (clock w)
    then (Exc "database error", log (mkEv l s c false) w)
    else let (a, w') := effect (log (mkEv l s c true) w) in (Val a, w').

(* ================================================================= *)
(** ** DB-API calls *)

(** [source_cur.execute(sql, params)] *)
Definition src_execute (l : nat) (sql : string) (params : list Z) : M unit :=
  db_call l Source (Execute sql params)
    (fun w => (tt, set_cursor (src_answer w params) w)).

(** [source_cur.fetchmany(size)] *)
Definition src_fetchmany (l : nat) (size : nat) : M (list row) :=
  fun w =>
    db_call l Source (Fetchmany size (firstn size (src_cursor w)))
      (fun w' => (firstn size (src_cursor w'), set_cursor (skipn size (src_cursor w')) w')) w.

(** [source_cur.fetchall()] *)
Definition src_fetchall (l : nat) : M (list row) :=
  fun w =>
    db_call l Source (Fetchall (src_cursor w))
      (fun w' => (src_cursor w', set_cursor [] w')) w.

(** [destination_cur.execute(sql)]: a TRUNCATE empties the table, the
    zero-row probe of [get_cols_name] changes nothing. *)
Definition dst_execute (l : nat) (sql : string) : M unit :=
  db_call l Destination (Execute sql [])
    (fun w => (tt, if prefix "TRUNCATE TABLE " sql then set_visible [] w else w)).

(** [destination_cur.executemany(insert, rows)] *)
Definition dst_executemany (l : nat) (sql : string) (rows : list row) : M unit :=
  db_call l Destination (Executemany sql rows)
    (fun w => (tt, set_visible (dst_visible w ++ rows) w)).

(** [destination_conn.commit()] / [destination_cur.commit()] *)
Definition dst_commit (l : nat) : M unit :=
  db_call l Destination Commit
    (fun w => (tt, set_committed (dst_visible w) w)).

(** [hook.get_first(sql)[0]]: the source answers the max-key query of
    [copy_by_key_interval] from its rows, every other statement is
    answered by the oracle. *)
Definition hook_get_first (l : nat) (s : side) (sql : string) : M value :=
  db_call l s (GetFirst sql)
    (fun w => (match s with
               | Source =>
                   if prefix "select COALESCE(max(" sql
                   then VInt (max_key (src_rows w))
                   else hook_first w s sql
               | _ => hook_first w s sql
               end, w)).

(** [hook.get_records(sql)], first column of each row *)
Definition hook_get_records (l : nat) (s : side) (sql : string) : M (list Z) :=
  db_call l s (GetRecords sql) (fun w => (hook_records w s sql, w)).

(** [hook.run(sql)] *)
Definition hook_run (l : nat) (s : side) (sql : string) : M unit :=
  db_call l s (Run sql) (fun w => (tt, w)).

(** [time.sleep(seconds)] *)
Definition sleep (l : nat) (seconds : Z) : M unit :=
  fun w => (Val tt, log (mkEv l Host (Sleep seconds) true) w).

(** [datetime.now()], in seconds *)
Definition get_now : M Z := fun w => (Val (now w (clock w)), w).

(** [DbConnection.__exit__]: closing drops the unfetched result set and
    rolls back what was not committed. *)
Definition close_connections : M unit :=
  fun w => (Val tt, set_cursor [] (set_visible (dst_committed w) w)).

(** The nested [with DbConnection(...) as ...:] blocks: both
    connections are opened (lines [ls], [ld]), the body runs, and the
    connections are closed however the body ends. *)
Definition with_connections {A} (ls ld : nat) (body : M A) : M A :=
  db_call ls Source Connect (fun w => (tt, w)) ;;;
  fun w =>
    match db_call ld Destination Connect (fun w => (tt, w)) w with
    | (Val _, w1) =>
        let (r, w2) := body w1 in
        (r, snd (close_connections w2))
    | (Exc msg, w1) => (Exc msg, snd (close_connections w1))
    | (OutOfFuel, w1) => (OutOfFuel, w1)
    end.

(* ================================================================= *)
(** ** Query builders *)

Fixpoint spaces (n : nat) : string :=
  match n with
  | O => ""
  | S n' => String " " (spaces n')
  end.

(** Truth value of an optional string argument: [None] and [''] are false. *)
Definition truthy (o : option string) : bool :=
  match o with
  | Some s => negb (s =? "")%string
  | None => false
  end.

(** An optional string inside an f-string. *)
Definition fmt (o : option string) : string :=
  match o with
  | Some s => s
  | None => "None"
  end.

Definition build_select_sql (source_table : string) (column_list : list string) : string :=
  let columns := join ", " column_list in
  "SELECT " +++ columns +++ " FROM " +++ source_table.

Definition build_dest_sqls (destination_table : string) (column_list : list string)
    (wildcard_symbol : string) : string * string :=
  let columns := join ", " column_list in
  let values := join ", " (map (fun _ => wildcard_symbol) column_list) in
  let insert := "INSERT INTO " +++ destination_table +++ " (" +++ columns +++ ") " +++
                "VALUES (" +++ values +++ ")" in
  let truncate := "TRUNCATE TABLE " +++ destination_table in
  (insert, truncate).

Definition _build_incremental_sqls (dest_table source_table key_column : string)
    (column_list : list string) : string * string :=
  let cols := join ", " (map (fun col => col +++ " = orig." +++ col) column_list) in
  let updates_sql :=
    nl +++ spaces 12 +++ "UPDATE " +++ dest_table +++ " SET " +++ cols +++
    nl +++ spaces 12 +++ "FROM " +++ source_table +++ " orig" +++
    nl +++ spaces 12 +++ "WHERE orig." +++ key_column +++ " = " +++ dest_table +++ "." +++ key_column +++
    nl +++ spaces 12 in
  let cols := join ", " column_list in
  let inserts_sql :=
    "INSERT INTO " +++ dest_table +++ " (" +++ cols +++ ")" +++
    nl +++ spaces 12 +++ "SELECT " +++ cols +++
    nl +++ spaces 12 +++ "FROM " +++ source_table +++ " AS inc" +++
    nl +++ spaces 12 +++ "WHERE NOT EXISTS" +++
    nl +++ spaces 12 +++ "(SELECT 1 FROM " +++ dest_table +++ " AS atual" +++
    nl +++ spaces 16 +++ "WHERE atual." +++ key_column +++ " = inc." +++ key_column +++ ")" +++
    nl +++ spaces 12 in
  (updates_sql, inserts_sql).

(* ================================================================= *)
(** ** Schema and validation *)

(** [get_cols_name]: the zero-row probe on the destination cursor, then
    the column names without the ignored ones, each in double quotes.
    With a provider that is neither MSSQL nor PG [colnames] is unbound. *)
Definition get_cols_name (destination_provider : provider) (destination_table : string)
    (columns_to_ignore : list string) : M (list string) :=
  colnames <-
    match destination_provider with
    | MSSQL =>
        dst_execute 115 ("SELECT * FROM " +++ destination_table +++ " WHERE 1 = 2") ;;;
        fun w => (Val (dst_columns w), w)
    | PG =>
        dst_execute 120 ("SELECT * FROM " +++ destination_table +++ " WHERE 1 = 2") ;;;
        fun w => (Val (dst_columns w), w)
    | MYSQL => raise "UnboundLocalError"
    end ;;
  let colnames := filter (fun n => negb (existsb (String.eqb n) columns_to_ignore)) colnames in
  ret (map (fun n => dquote +++ n +++ dquote) colnames).

(** [get_table_cols_name]: the destination's column names as they are. *)
Definition get_table_cols_name (schema table : string) : M (list string) :=
  fun w =>
    match dst_conn_type w with
    | other_conn => raise "Conn_type not implemented." w
    | _ =>
        db_call 143 Destination
          (Execute ("SELECT * FROM " +++ schema +++ "." +++ table +++ " WHERE 1=2") [])
          (fun w' => (dst_columns w', w')) w
    end.

(** [validate_db_string]; the warning on different table names has no
    effect on the run and is left out. *)
Definition validate_db_string (source_table : option string) (destination_table : string)
    (select_sql : option string) : M unit :=
  assert (Nat.eqb (count_dots destination_table) 1)
         "Estrutura tabela destino deve ser str: schema.table" ;;;
  if negb (truthy select_sql) then
    match source_table with
    | None => raise "AttributeError"
    | Some source_table =>
        assert (Nat.eqb (count_dots source_table) 1)
               "Estrutura tabela origem deve ser str: schema.table"
    end
  else ret tt.

(* ================================================================= *)
(** ** copy_db_to_db *)

(** The [while rows:] loop of [copy_db_to_db]; its value is
    [rows_inserted]. *)
Fixpoint copy_loop (fuel : nat) (insert : string) (chunksize : nat)
    (rows : list row) (rows_inserted : nat) : M nat :=
  match rows with
  | [] => ret rows_inserted
  | _ :: _ =>
      match fuel with
      | O => out_of_fuel
      | S fuel' =>
          dst_executemany 335 insert rows ;;;
          let rows_inserted := rows_inserted + List.length rows in
          rows <- src_fetchmany 337 chunksize ;;
          copy_loop fuel' insert chunksize rows rows_inserted
      end
  end.

(** The body of [copy_db_to_db]; its value is the [rows_inserted] that
    the function prints. *)
Definition copy_db_to_db_rows (fuel : nat) (destination_table : string)
    (source_provider destination_provider : provider)
    (source_table select_sql : option string) (columns_to_ignore : list string)
    (destination_truncate : bool) (chunksize : nat) : M nat :=
  validate_db_string source_table destination_table select_sql ;;;
  with_connections 297 298 (
    let wildcard_symbol :=
      match destination_provider with MSSQL => "?" | _ => "%s" end in
    col_list <- get_cols_name destination_provider destination_table columns_to_ignore ;;
    let '(insert, truncate) := build_dest_sqls destination_table col_list wildcard_symbol in
    let select_sql :=
      if negb (truthy select_sql) then build_select_sql (fmt source_table) col_list
      else fmt select_sql in
    (if destination_truncate then
       dst_execute 323 truncate ;;;
       match destination_provider with
       | MSSQL => dst_commit 325
       | _ => ret tt
       end
     else ret tt) ;;;
    src_execute 329 select_sql [] ;;;
    rows <- src_fetchmany 330 chunksize ;;
    let rows_inserted := 0 in
    rows_inserted <- copy_loop fuel insert chunksize rows rows_inserted ;;
    dst_commit 340 ;;;
    ret rows_inserted).

Definition copy_db_to_db (fuel : nat) (destination_table : string)
    (source_provider destination_provider : provider)
    (source_table select_sql : option string) (columns_to_ignore : list string)
    (destination_truncate : bool) (chunksize : nat) : M unit :=
  copy_db_to_db_rows fuel destination_table source_provider destination_provider
    source_table select_sql columns_to_ignore destination_truncate chunksize ;;;
  ret tt.

(* ================================================================= *)
(** ** copy_by_key_interval *)

(** [int(v)] on the answer to the max-key query. *)
Definition py_int (v : value) : M Z :=
  match v with
  | VInt z => ret z
  | VNull => raise "TypeError"
  | VStr _ => raise "ValueError"
  | VDatetime _ => raise "TypeError"
  end.

(** The [while key_begin <= max_id and max_id > 0:] loop.  Its value
    is [inl r] when the body executed [return r], and [inr
    rows_inserted] when the loop condition became false. *)
Fixpoint key_loop (fuel : nat) (insert select_sql : string) (key_interval max_id run_step : Z)
    (key_begin key_end : Z) (rows : list row) (rows_inserted : nat) (last_sleep : Z)
    : M ((bool * option Z) + nat) :=
  if ((key_begin <=? max_id) && (max_id >? 0))%Z then
    match fuel with
    | O => out_of_fuel
    | S fuel' =>
        t <- get_now ;;
        last_sleep <-
          (if (((t - last_sleep) mod 86400) >? run_step)%Z
           then sleep 750 20 ;;; get_now
           else ret last_sleep) ;;
        (* Tenta ESCREVER no destino *)
        written <-
          match rows with
          | [] => ret (inr tt)
          | _ :: _ => try (dst_executemany 756 insert rows ;;; dst_commit 757)
          end ;;
        match written with
        | inl _ => ret (inl (false, Some key_begin))
        | inr _ =>
            let rows_inserted := rows_inserted + List.length rows in
            let key_begin := (key_end + 1)%Z in
            let key_end := (key_begin + key_interval - 1)%Z in
            (* Tenta LER na origem *)
            fetched <- try (src_execute 768 select_sql [key_begin; key_end] ;;;
                            src_fetchall 769) ;;
            match fetched with
            | inl _ => ret (inl (false, Some key_begin))
            | inr rows =>
                key_loop fuel' insert select_sql key_interval max_id run_step
                         key_begin key_end rows rows_inserted last_sleep
            end
        end
    end
  else ret (inr rows_inserted).

Definition max_id_sql (key_column source_table : string) : string :=
  "select COALESCE(max(" +++ key_column +++ "),0)" +++
  nl +++ spaces 40 +++ "FROM " +++ source_table.

(** The body of [copy_by_key_interval] between the opening and the
    closing of the connections. *)
Definition copy_by_key_interval_body (fuel : nat) (source_table : string)
    (destination_provider : provider) (destination_table key_column : string)
    (key_start key_interval : Z) (destination_truncate : bool) : M (bool * option Z) :=
  let wildcard_symbol :=
    match destination_provider with MSSQL => "?" | _ => "%s" end in
  col_list <- get_cols_name destination_provider destination_table [] ;;
  let '(insert, truncate) := build_dest_sqls destination_table col_list wildcard_symbol in
  let select_sql := build_select_sql source_table col_list in
  let select_sql := select_sql +++ " WHERE " +++ key_column +++ " BETWEEN %s AND %s" in
  (if destination_truncate then
     dst_execute 717 truncate ;;; dst_commit 718
   else ret tt) ;;;
  let key_begin := key_start in
  let key_end := (key_begin + key_interval - 1)%Z in
  let rows_inserted := 0 in
  (* Tenta LER na origem *)
  fetched <- try (src_execute 729 select_sql [key_begin; key_end] ;;; src_fetchall 730) ;;
  match fetched with
  | inl _ => ret (false, Some key_begin)
  | inr rows =>
      last_sleep <- get_now ;;
      let run_step := (60 * 30)%Z in
      (* Consulta max id na origem *)
      v <- hook_get_first 742 Source (max_id_sql key_column source_table) ;;
      max_id <- py_int v ;;
      r <- key_loop fuel insert select_sql key_interval max_id run_step
                    key_begin key_end rows rows_inserted last_sleep ;;
      match r with
      | inl early => ret early
      | inr _ =>
          dst_commit 774 ;;;
          ret (true, None)
      end
  end.

Definition copy_by_key_interval (fuel : nat) (source_provider : provider)
    (source_table : string) (destination_provider : provider)
    (destination_table key_column : string) (key_start key_interval : Z)
    (destination_truncate : bool) : M (bool * option Z) :=
  validate_db_string (Some source_table) destination_table None ;;;
  with_connections 691 692
    (copy_by_key_interval_body fuel source_table destination_provider
       destination_table key_column key_start key_interval destination_truncate).

(* ================================================================= *)
(** ** copy_by_key_with_retry *)

(** The [while not succeeded and (retry <= retries):] loop; [fuel]
    bounds each call of [copy_by_key_interval], [n] the retries. *)
Fixpoint retry_loop (n fuel : nat) (source_provider : provider) (source_table : string)
    (destination_provider : provider) (destination_table key_column : string)
    (key_interval : Z) (retries retry_delay : Z)
    (retry : Z) (succeeded : bool) (next_key : option Z) : M (bool * option Z) :=
  if (negb succeeded && (retry <=? retries)%Z) then
    match n with
    | O => out_of_fuel
    | S n' =>
        let retry := (retry + 1)%Z in
        sleep 853 retry_delay ;;;
        r <- match next_key with
             | Some key_start =>
                 copy_by_key_interval fuel source_provider source_table
                   destination_provider destination_table key_column
                   key_start key_interval false
             | None => raise "TypeError"
             end ;;
        let '(succeeded, next_key) := r in
        retry_loop n' fuel source_provider source_table destination_provider
          destination_table key_column key_interval retries retry_delay
          retry succeeded next_key
    end
  else ret (succeeded, next_key).

(** [copy_by_key_with_retry] up to its last report; its value is the
    last [(succeeded, next_key)]. *)
Definition copy_by_key_with_retry_status (n fuel : nat) (source_provider : provider)
    (source_table : string) (destination_provider : provider)
    (destination_table key_column : string) (key_start key_interval : Z)
    (destination_truncate : bool) (retries retry_delay : Z) : M (bool * option Z) :=
  let retry := 0%Z in
  r <- copy_by_key_interval fuel source_provider source_table destination_provider
         destination_table key_column key_start key_interval destination_truncate ;;
  let '(succeeded, next_key) := r in
  retry_loop n fuel source_provider source_table destination_provider
    destination_table key_column key_interval retries retry_delay
    retry succeeded next_key.

Definition copy_by_key_with_retry (n fuel : nat) (source_provider : provider)
    (source_table : string) (destination_provider : provider)
    (destination_table key_column : string) (key_start key_interval : Z)
    (destination_truncate : bool) (retries retry_delay : Z) : M unit :=
  copy_by_key_with_retry_status n fuel source_provider source_table destination_provider
    destination_table key_column key_start key_interval destination_truncate
    retries retry_delay ;;;
  ret tt.

(* ================================================================= *)
(** ** sync_db_2_db *)

Definition _table_rows_count (s : side) (table : string) (where_condition : option string)
    : M value :=
  let sql := "SELECT COUNT(*) FROM " +++ table in
  let sql := sql +++ match where_condition with
                     | Some c => " WHERE " +++ c +++ ";"
                     | None => ";"
                     end in
  hook_get_first 362 s sql.

(** [_table_column_max_string] *)
Definition _table_column_max_string (table column : string) : M string :=
  let sql := "SELECT MAX(" +++ column +++ ") FROM " +++ table +++ ";" in
  max_value <- hook_get_first 374 Destination sql ;;
  if (column =? "dataalteracao")%string then
    match max_value with
    | VDatetime d => ret (drop_last3 (strftime_f d))
    | _ => raise "AttributeError"
    end
  else ret (py_str max_value).

Definition lower_ascii (c : ascii) : ascii :=
  let n := nat_of_ascii c in
  if (65 <=? n)%nat && (n <=? 90)%nat then ascii_of_nat (n + 32) else c.

(** Python's [s.lower()] on ASCII text. *)
Fixpoint lower (s : string) : string :=
  match s with
  | EmptyString => EmptyString
  | String c s' => String (lower_ascii c) (lower s')
  end.

(** [_build_increm_filter]: the older filter builder, which looks for
    the column 'dataalteracao' among the columns. *)
Definition _build_increm_filter (col_list : list string) (table key_column : string)
    : M string :=
  let col_list := map lower col_list in
  let key := if existsb (String.eqb "dataalteracao") col_list
             then "dataalteracao" else key_column in
  max_value <- _table_column_max_string table key ;;
  let where_condition := key +++ " > '" +++ max_value +++ "'" in
  ret where_condition.

(** [_build_filter_condition] *)
Definition _build_filter_condition (table : string) (date_column : option string)
    (key_column : string) : M (string * string) :=
  let sql := if truthy date_column
             then "SELECT MAX(" +++ fmt date_column +++ ") FROM " +++ table
             else "SELECT MAX(" +++ key_column +++ ") FROM " +++ table in
  max_value <- hook_get_first 412 Destination sql ;;
  if truthy date_column then
    match max_value with
    | VDatetime d =>
        let max_value := drop_last3 (strftime_f d) in
        let where_condition := fmt date_column +++ " > '" +++ max_value +++ "'" in
        ret (max_value, where_condition)
    | _ => raise "AttributeError"
    end
  else
    let max_value := py_str max_value in
    let where_condition := key_column +++ " > '" +++ max_value +++ "'" in
    ret (max_value, where_condition).

(** [dest_rows_count == 0] *)
Definition is_zero (v : value) : bool :=
  match v with
  | VInt 0 => true
  | _ => false
  end.

Definition source_exc_sql (key_column : string)
    (source_exc_schema source_exc_table source_exc_column : option string)
    (ref_value : string) : string :=
  "SELECT " +++ key_column +++
  nl +++ spaces 29 +++ "FROM " +++ fmt source_exc_schema +++ "." +++ fmt source_exc_table +++
  nl +++ spaces 29 +++ "WHERE " +++ fmt source_exc_column +++ " > '" +++ ref_value +++ "'" +++
  nl +++ spaces 26.

Definition delete_sql (dest_table_name key_column : string) (ids_to_del : list Z) : string :=
  let ids := join ", " (map str_of_Z ids_to_del) in
  nl +++ spaces 16 +++ "DELETE FROM " +++ dest_table_name +++
  nl +++ spaces 16 +++ "WHERE " +++ key_column +++ " IN (" +++ ids +++ ")" +++
  nl +++ spaces 12.

(** [sync_db_2_db].  While it runs, the destination table of the world
    (what the cursor of [copy_db_to_db] writes) is the staging table;
    the statements sent through the hooks are in the trace. *)
Definition sync_db_2_db (fuel : nat) (table : string) (date_column : option string)
    (key_column source_schema destination_schema : string)
    (increment_schema : option string) (sync_exclusions : bool)
    (source_exc_schema source_exc_table source_exc_column : option string)
    (chunksize : nat) : M unit :=
  let source_table_name := source_schema +++ "." +++ table in
  let dest_table_name := destination_schema +++ "." +++ table in
  let inc_table_name :=
    if truthy increment_schema then fmt increment_schema +++ "." +++ table
    else destination_schema +++ "." +++ table +++ "_alteracoes" in
  conn_type <- (fun w => (Val (dst_conn_type w), w)) ;;
  col_list <- get_table_cols_name destination_schema table ;;
  destination_provider <-
    match conn_type with
    | mssql => ret MSSQL
    | postgres => ret PG
    | other_conn => raise "UnboundLocalError"
    end ;;
  dest_rows_count <- _table_rows_count Destination dest_table_name None ;;
  (* If de tabela vazia separado para evitar erro na _build_filter_condition() *)
  if is_zero dest_rows_count then raise "Tabela destino vazia! Utilize carga full!"
  else
    f <- _build_filter_condition dest_table_name date_column key_column ;;
    let '(ref_value, where_condition) := f in
    new_rows_count <- _table_rows_count Source source_table_name (Some where_condition) ;;
    (* Guarda as alterações e inclusões necessárias *)
    let select_sql := build_select_sql source_table_name col_list in
    let select_diff := select_sql +++ " WHERE " +++ where_condition in
    copy_db_to_db fuel inc_table_name PG destination_provider None (Some select_diff)
                  [] true chunksize ;;;
    (* Reconstrói índices *)
    sql <- match conn_type with
           | mssql => ret ("ALTER INDEX ALL ON " +++ inc_table_name +++ " REBUILD")
           | postgres => ret ("REINDEX TABLE " +++ inc_table_name)
           | other_conn => raise "UnboundLocalError"
           end ;;
    hook_run 568 Destination sql ;;;
    let '(updates_sql, inserts_sql) :=
      _build_incremental_sqls dest_table_name inc_table_name key_column col_list in
    (* Realiza updates *)
    hook_run 577 Destination updates_sql ;;;
    (* Realiza inserts de novas linhas *)
    hook_run 579 Destination inserts_sql ;;;
    (* Se precisar aplicar as exclusões da origem no destino: *)
    if sync_exclusions then
      ids_to_del <- hook_get_records 587 Source
                      (source_exc_sql key_column source_exc_schema source_exc_table
                                      source_exc_column ref_value) ;;
      match ids_to_del with
      | [] => ret tt
      | _ :: _ => hook_run 595 Destination (delete_sql dest_table_name key_column ids_to_del)
      end
    else ret tt.

(* ================================================================= *)
(** ** What the merge statements do to the tables

    The UPDATE and the INSERT that [_build_incremental_sqls] writes,
    read as functions on the rows of the destination and of the
    staging table. *)

Definition has_key (k : Z) (t : list row) : bool :=
  existsb (fun r => (row_key r =? k)%Z) t.

(** [UPDATE dest SET col = orig.col, ... FROM staging orig
     WHERE orig.key = dest.key] *)
Definition apply_update (dest staging : list row) : list row :=
  map (fun d => match find (fun s => (row_key s =? row_key d)%Z) staging with
                | Some s => s
                | None => d
                end) dest.

(** The staging rows that [INSERT INTO dest (...) SELECT ... FROM staging AS inc
     WHERE NOT EXISTS (SELECT 1 FROM dest AS atual WHERE atual.key = inc.key)]
    selects. *)
Definition missing_rows (dest staging : list row) : list row :=
  filter (fun inc => negb (has_key (row_key inc) dest)) staging.

Definition apply_insert_missing (dest staging : list row) : list row :=
  dest ++ missing_rows dest staging.

(** The statements of a run in the order the hooks sent them. *)
Definition statements_run (tr : list event) : list (nat * string) :=
  flat_map (fun e => match ev_call e with
                     | Run sql => [(ev_line e, sql)]
                     | _ => []
                     end) tr.

(* ================================================================= *)
(** ** Reading a trace *)

(** No call raises. *)
Definition fault_free (w : world) : Prop := forall l t, fault w l t = false.

(** The row batches of the [executemany] calls, in order. *)
Definition batches (tr : list event) : list (list row) :=
  flat_map (fun e => match ev_call e with
                     | Executemany _ rows => [rows]
                     | _ => []
                     end) tr.

(** The results of the [fetchmany] calls, in order. *)
Definition fetches (tr : list event) : list (list row) :=
  flat_map (fun e => match ev_call e with
                     | Fetchmany _ result => [result]
                     | _ => []
                     end) tr.

(** The calls on the destination connection, in order. *)
Definition dst_calls (tr : list event) : list call :=
  flat_map (fun e => match ev_side e with
                     | Destination => [ev_call e]
                     | _ => []
                     end) tr.

(** [ceil(n / c)] *)
Definition ceil_div (n c : nat) : nat := (n + c - 1) / c.

(* ================================================================= *)
(** ** Worlds for the examples *)

Definition no_fault : nat -> nat -> bool := fun _ _ => false.

Definition demo_row (k : Z) : row := mkRow k [VInt k; VStr "x"].

(** A world with the given source rows, destination rows and fault
    oracle; the destination has the columns [id] and [name], the hooks
    answer NULL, and the wall clock advances one second per call. *)
Definition demo_world (src dst : list row) (f : nat -> nat -> bool) : world :=
  mkWorld src [] ["id"; "name"] mssql dst dst
          (fun _ _ => VNull) (fun _ _ => []) f (fun t => Z.of_nat t) [].

Definition four_rows : list row := map demo_row [1; 2; 3; 4]%Z.

(** "A commit follows every [executemany]": in the calls on the
    destination, the call after each [executemany] is a [commit]. *)
Fixpoint commit_after_each_insert (calls : list call) : bool :=
  match calls with
  | [] => true
  | Executemany _ _ :: rest =>
      match rest with
      | Commit :: _ => commit_after_each_insert rest
      | _ => false
      end
  | _ :: rest => commit_after_each_insert rest
  end.

(* ================================================================= *)
(** ** Key intervals *)


(** [n] consecutive intervals of width [size] from [key_begin] on. *)
Fixpoint intervals (size key_begin : Z) (n : nat) : list (Z * Z) :=
  match n with
  | O => []
  | S n' => (key_begin, key_begin + size - 1)%Z :: intervals size (key_begin + size)%Z n'
  end.



(** The key ranges of the bounded SELECTs sent to the source, in order. *)
Definition selects (tr : list event) : list (Z * Z) :=
  flat_map (fun e => match ev_side e, ev_call e with
                     | Source, Execute _ [b; e'] => [(b, e')]
                     | _, _ => []
                     end) tr.

(** The calls that raised. *)
Definition failures (tr : list event) : list event :=
  filter (fun e => negb (ev_ok e)) tr.



(** [w'] is [w] after the calls [new]: same source, same fault oracle. *)
Definition stepped (w w' : world) (new : list event) : Prop :=
  trace w' = trace w ++ new /\ src_rows w' = src_rows w /\ fault w' = fault w.





(** A fault oracle that makes every call at line [l] raise. *)
Definition always_at (l : nat) : nat -> nat -> bool := fun l' _ => Nat.eqb l' l.

(** A fault oracle that makes the call number [t] raise if it is at line [l]. *)
Definition once_at (l t : nat) : nat -> nat -> bool :=
  fun l' t' => Nat.eqb l' l && Nat.eqb t' t.

(** Three source rows with the keys 3, 12 and 25. *)
Definition three_rows : list row := map demo_row [3; 12; 25]%Z.

(** The number of calls of [copy_by_key_interval] in a trace: each
    call opens the source connection at line 691. *)
Definition invocations (tr : list event) : nat :=
  List.length (filter (fun e => Nat.eqb (ev_line e) 691) tr).

(** The results of the [fetchall] calls, in order. *)
Definition fetchalls (tr : list event) : list (list row) :=
  flat_map (fun e => match ev_call e with
                     | Fetchall result => [result]
                     | _ => []
                     end) tr.

(** A source with a row of key 0 and a row of key -3: its maximum key is 0. *)
Definition low_rows : list row := map demo_row [0; -3]%Z.

(* ================================================================= *)
(** ** Which calls a computation makes, and what it raises *)

(** [emits L E m]: whatever raises, [m] only appends calls made at the
    source lines [L] to the trace, and an exception it raises carries
    one of the messages [E]. *)
Definition emits (L : list nat) (E : list string) {A} (m : M A) : Prop :=
  forall w r w', m w = (r, w') ->
    (exists new, trace w' = trace w ++ new /\ Forall (fun e => In (ev_line e) L) new) /\
    (forall msg, r = Exc msg -> In msg E).

(** The source lines of the calls of [copy_db_to_db]. *)
Definition copy_lines : list nat :=
  [297; 298; 115; 120; 323; 325; 329; 330; 335; 337; 340].

(** The source lines of the calls [sync_db_2_db] makes before the merge. *)
Definition staging_lines : list nat := [143; 362; 412] ++ copy_lines ++ [568].

(** The source lines of the calls of the delete propagation. *)
Definition delete_lines : list nat := [587; 595].

(** The messages of the exceptions that [sync_db_2_db] can raise once
    the destination was found not empty. *)
Definition sync_messages : list string :=
  ["database error"; "AttributeError"; "UnboundLocalError";
   "Estrutura tabela destino deve ser str: schema.table";
   "Estrutura tabela origem deve ser str: schema.table"].

(** The calls of the merge phase in a trace: lines 577 and 579. *)
Definition merge_calls (tr : list event) : list event :=
  filter (fun e => Nat.eqb (ev_line e) 577 || Nat.eqb (ev_line e) 579) tr.

(** What the merge phase of one run can look like: nothing (the run
    ended before), the UPDATE alone if it raised, or the UPDATE
    followed by the INSERT. *)
Definition merge_shape (updates_sql inserts_sql : string) (calls : list event) : Prop :=
  calls = [] \/
  calls = [mkEv 577 Destination (Run updates_sql) false] \/
  exists ok, calls = [mkEv 577 Destination (Run updates_sql) true;
                      mkEv 579 Destination (Run inserts_sql) ok].

(** [merge_ordered u i m]: in the calls that [m] makes, the merge phase
    has the shape above for the statements [u] and [i]. *)
Definition merge_ordered (updates_sql inserts_sql : string) {A} (m : M A) : Prop :=
  forall w r w', m w = (r, w') ->
    exists new, trace w' = trace w ++ new /\
                merge_shape updates_sql inserts_sql (merge_calls new).

(** The message of the exception for an empty destination. *)
Definition empty_destination : string := "Tabela destino vazia! Utilize carga full!".

(** The statement that counts the rows of the destination table. *)
Definition count_sql (destination_schema table : string) : string :=
  ("SELECT COUNT(*) FROM " +++ destination_schema +++ "." +++ table) +++ ";".

(** A world like [w] whose hooks answer [v] to every [get_first] on
    the destination. *)
Definition with_first (v : value) (w : world) : world :=
  mkWorld (src_rows w) (src_cursor w) (dst_columns w) (dst_conn_type w) (dst_visible w)
          (dst_committed w) (fun _ _ => v) (hook_records w) (fault w) (now w) (trace w).

(* ================================================================= *)
(** ** The filter of the incremental sync *)






(** 2020-06-20 10:11:12.123456 *)
Definition a_datetime : datetime := mkDatetime 2020 6 20 10 11 12 123456.

(* ================================================================= *)
(** ** What a computation leaves as it was *)

(** [preserves R m]: whatever [m] returns or raises, the world it
    leaves is related by [R] to the world it started in. *)
Definition preserves (R : world -> world -> Prop) {A} (m : M A) : Prop :=
  forall w r w', m w = (r, w') -> R w w'.

(** The committed destination table is the same. *)
Definition same_committed (w w' : world) : Prop := dst_committed w' = dst_committed w.

(** The source, the fault oracle and the columns are the same. *)
Definition same_source (w w' : world) : Prop :=
  src_rows w' = src_rows w /\ fault w' = fault w /\ dst_columns w' = dst_columns w.

(** The statements sent to the source cursor, in order. *)
Definition src_statements (tr : list event) : list string :=
  flat_map (fun e => match ev_side e, ev_call e with
                     | Source, Execute sql _ => [sql]
                     | _, _ => []
                     end) tr.

(** The number of calls made at source line [l] in a trace. *)
Definition calls_at (l : nat) (tr : list event) : nat :=
  List.length (filter (fun e => Nat.eqb (ev_line e) l) tr).

(** [at_most l n m]: whatever raises, [m] makes at most [n] calls at
    source line [l]. *)
Definition at_most (l n : nat) {A} (m : M A) : Prop :=
  forall w r w', m w = (r, w') ->
    exists new, trace w' = trace w ++ new /\ calls_at l new <= n.

(** The source lines of the calls [copy_by_key_interval] makes between
    the opening and the closing of the connections; the [TRUNCATE] and
    its commit are among them only when asked for. *)
Definition key_body_lines (destination_truncate : bool) : list nat :=
  [115; 120] ++ (if destination_truncate then [717; 718] else []) ++
  [729; 730; 742; 750; 756; 757; 768; 769; 774].

(** The source lines of all the calls of [copy_by_key_interval]. *)
Definition key_lines (destination_truncate : bool) : list nat :=
  691 :: 692 :: key_body_lines destination_truncate.

(** The exceptions [copy_by_key_interval] and [copy_by_key_with_retry] can raise. *)
Definition key_messages : list string := sync_messages ++ ["TypeError"; "ValueError"].


(* ================================================================= *)
(** ** copy_by_limit_offset *)

(** [source_cur.execute(select_sql, (next_offset, limit))] for the
    statement [SELECT ... limit %s, %s]: the source answers with the
    page of [limit] rows that follows its first [next_offset] rows, and
    keeps its rows in the same order from one statement to the next. *)
Definition src_execute_page (l : nat) (sql : string) (next_offset limit : nat) : M unit :=
  db_call l Source (Execute sql [Z.of_nat next_offset; Z.of_nat limit])
    (fun w => (tt, set_cursor (firstn limit (skipn next_offset (src_rows w))) w)).

(** The [while rows:] loop of [copy_by_limit_offset]; its value is
    [rows_inserted]. *)
Fixpoint limit_offset_loop (fuel : nat) (insert select_sql : string) (limit : nat)
    (rows : list row) (next_offset rows_inserted : nat) : M nat :=
  match rows with
  | [] => ret rows_inserted
  | _ :: _ =>
      match fuel with
      | O => out_of_fuel
      | S fuel' =>
          dst_executemany 949 insert rows ;;;
          dst_commit 950 ;;;
          let rows_inserted := rows_inserted + List.length rows in
          let next_offset := next_offset + limit in
          src_execute_page 954 select_sql next_offset limit ;;;
          rows <- src_fetchall 955 ;;
          limit_offset_loop fuel' insert select_sql limit rows next_offset rows_inserted
      end
  end.

(** [copy_by_limit_offset]; its value is the [rows_inserted] that the
    function prints.  The insert is always built with the wildcard
    [?], and the [TRUNCATE] is committed whatever the provider. *)
Definition copy_by_limit_offset (fuel : nat) (source_provider : provider)
    (source_table : string) (destination_provider : provider) (destination_table : string)
    (limit : nat) (destination_truncate : bool) : M nat :=
  validate_db_string (Some source_table) destination_table None ;;;
  with_connections 915 916 (
    col_list <- get_cols_name destination_provider destination_table [] ;;
    let '(insert, truncate) := build_dest_sqls destination_table col_list "?" in
    let select_sql := build_select_sql source_table col_list in
    let select_sql := select_sql +++ " limit %s, %s" in
    (if destination_truncate then
       dst_execute 937 truncate ;;; dst_commit 938
     else ret tt) ;;;
    let next_offset := 0 in
    let rows_inserted := 0 in
    src_execute_page 945 select_sql next_offset limit ;;;
    rows <- src_fetchall 946 ;;
    rows_inserted <- limit_offset_loop fuel insert select_sql limit rows
                       next_offset rows_inserted ;;
    dst_commit 957 ;;;
    ret rows_inserted).


(** The tables are the same: the source, and the destination both as
    committed and as the open transaction sees it. *)
Definition same_tables (w w' : world) : Prop :=
  src_rows w' = src_rows w /\ dst_committed w' = dst_committed w /\
  dst_visible w' = dst_visible w.

(* ================================================================= *)
(** ** search_key_gaps *)

(** [COUNT(DISTINCT key)] over some rows. *)
Definition count_distinct (rows : list row) : Z :=
  Z.of_nat (List.length (nodup Z.eq_dec (map row_key rows))).

(** [MAX(key)] over a table: NULL, Python's [None], when it is empty. *)
Definition max_key_opt (rows : list row) : option Z :=
  match rows with
  | [] => None
  | _ :: _ => Some (max_key rows)
  end.

(** The one row a [COUNT] statement answers with. *)
Definition count_row (c : Z) : row := mkRow c [VInt c].

(** [source_cur.execute(select_sql, (key_begin, key_end))] for the
    statement that counts the distinct keys between two bounds: the
    result set is one row with the count. *)
Definition src_execute_count (l : nat) (sql : string) (key_begin key_end : Z) : M unit :=
  db_call l Source (Execute sql [key_begin; key_end])
    (fun w => (tt, set_cursor
                     [count_row (count_distinct (filter (between key_begin key_end) (src_rows w)))]
                     w)).

(** [source_cur.fetchone()]: the next row of the result set, or [None]. *)
Definition src_fetchone (l : nat) : M (option row) :=
  fun w =>
    db_call l Source (Fetchmany 1 (firstn 1 (src_cursor w)))
      (fun w' => (hd_error (src_cursor w'), set_cursor (skipn 1 (src_cursor w')) w')) w.

(** [destination_cur.execute(compare_sql, key_begin, key_end).fetchone()]
    and its [count_dest]. *)
Definition dst_count (l : nat) (sql : string) (key_begin key_end : Z) : M Z :=
  db_call l Destination (Execute sql [key_begin; key_end])
    (fun w => (count_distinct (filter (between key_begin key_end) (dst_visible w)), w)).

(** [destination_cur.execute(lastkey_sql).fetchone()] and its [last_key]. *)
Definition dst_last_key (l : nat) (sql : string) : M (option Z) :=
  db_call l Destination (Execute sql []) (fun w => (max_key_opt (dst_visible w), w)).

(** [rows[0]] as a number that can be compared and subtracted. *)
Definition first_cell (rows : row) : M Z :=
  match row_cells rows with
  | [] => raise "IndexError"
  | VInt c :: _ => ret c
  | _ :: _ => raise "TypeError"
  end.

(** The [while rows:] loop of [search_key_gaps]; its value is the
    [gaps] and [totdif] of the summary that is printed.  The loop is
    left through its [break]; comparing [key_begin] with a [last_key]
    that is [None] raises. *)
Fixpoint gaps_loop (fuel : nat) (select_sql compare_sql : string) (key_interval : Z)
    (last_key : option Z) (rows : option row) (key_begin key_end : Z)
    (gaps : nat) (totdif : Z) : M (nat * Z) :=
  match rows with
  | None => ret (gaps, totdif)
  | Some rows =>
      match fuel with
      | O => out_of_fuel
      | S fuel' =>
          count_dest <- dst_count 1043 compare_sql key_begin key_end ;;
          count_source <- first_cell rows ;;
          let '(gaps, totdif) :=
            if negb (count_source =? count_dest)%Z
            then (S gaps, (totdif + (count_source - count_dest))%Z)
            else (gaps, totdif) in
          let key_begin := (key_end + 1)%Z in
          let key_end := (key_begin + key_interval - 1)%Z in
          match last_key with
          | None => raise "TypeError"
          | Some last_key =>
              if (key_begin >? last_key)%Z then ret (gaps, totdif)
              else
                src_execute_count 1062 select_sql key_begin key_end ;;;
                rows <- src_fetchone 1063 ;;
                gaps_loop fuel' select_sql compare_sql key_interval (Some last_key)
                          rows key_begin key_end gaps totdif
          end
      end
  end.

(** [search_key_gaps]; its value is the [gaps] and [totdif] it prints. *)
Definition search_key_gaps (fuel : nat) (source_provider : provider) (source_table : string)
    (destination_provider : provider) (destination_table key_column : string)
    (key_start key_interval : Z) : M (nat * Z) :=
  validate_db_string (Some source_table) destination_table None ;;;
  with_connections 1006 1007 (
    let select_sql :=
      nl +++ spaces 24 +++ "SELECT COUNT(DISTINCT " +++ key_column +++ ") AS count_source" +++
      nl +++ spaces 24 +++ "FROM " +++ source_table in
    let select_sql := select_sql +++ " WHERE " +++ key_column +++ " BETWEEN %s AND %s" in
    let compare_sql :=
      nl +++ spaces 24 +++ "SELECT COUNT(DISTINCT " +++ key_column +++ ") AS count_dest" +++
      nl +++ spaces 24 +++ "FROM " +++ destination_table in
    let compare_sql := compare_sql +++ " WHERE " +++ key_column +++ " BETWEEN ? AND ?" in
    let lastkey_sql :=
      nl +++ spaces 24 +++ "SELECT MAX(" +++ key_column +++ ") AS last_key" +++
      nl +++ spaces 24 +++ "FROM " +++ destination_table in
    last_key <- dst_last_key 1030 lastkey_sql ;;
    let gaps := 0 in
    let totdif := 0%Z in
    let key_begin := key_start in
    let key_end := (key_begin + key_interval - 1)%Z in
    src_execute_count 1039 select_sql key_begin key_end ;;;
    rows <- src_fetchone 1040 ;;
    gaps_loop fuel select_sql compare_sql key_interval last_key rows
              key_begin key_end gaps totdif).

(** How many intervals [search_key_gaps] compares: the first one, and
    then every one that begins at or below the last key of the
    destination. *)
Definition scans (size key_start last_key : Z) : nat :=
  S (Z.to_nat ((last_key - key_start) / size)).

(** The summary for a list of intervals: how many of them have different
    numbers of distinct keys in [src] and [dst], and the sum of the
    differences. *)
Fixpoint gap_report (src dst : list row) (ivs : list (Z * Z)) : nat * Z :=
  match ivs with
  | [] => (0, 0%Z)
  | (b, e) :: rest =>
      let cs := count_distinct (filter (between b e) src) in
      let cd := count_distinct (filter (between b e) dst) in
      let '(gaps, totdif) := gap_report src dst rest in
      if (cs =? cd)%Z then (gaps, totdif) else (S gaps, (cs - cd + totdif)%Z)
  end.

(** A world like [w] whose source table holds [src]. *)
Definition with_source (src : list row) (w : world) : world :=
  mkWorld src (src_cursor w) (dst_columns w) (dst_conn_type w) (dst_visible w)
          (dst_committed w) (hook_first w) (hook_records w) (fault w) (now w) (trace w).

(** The last key of the last interval [search_key_gaps] compares. *)
Definition last_scanned (size key_start last_key : Z) : Z :=
  (key_start + Z.of_nat (scans size key_start last_key) * size - 1)%Z.

(* ================================================================= *)
(** ** utils/date.py: the last day of a month

    A [datetime.date] is a year, a month and a day; [date.min] is
    0001-01-01 and [date.max] is 9999-12-31.  The three operations the
    functions use are those of [datetime] and of
    [dateutil.relativedelta]. *)

Record date := mkDate { year_of : Z; month_of : Z; day_of : Z }.

Definition is_leap (y : Z) : bool :=
  ((y mod 4 =? 0) && negb (y mod 100 =? 0) || (y mod 400 =? 0))%Z.

Definition days_in_month (y m : Z) : Z :=
  if (m =? 2)%Z then (if is_leap y then 29 else 28)%Z
  else if ((m =? 4) || (m =? 6) || (m =? 9) || (m =? 11))%Z then 30%Z
  else 31%Z.

(** The dates that [datetime.date] can hold. *)
Definition valid_date (d : date) : Prop :=
  (1 <= year_of d <= 9999 /\ 1 <= month_of d <= 12 /\
   1 <= day_of d <= days_in_month (year_of d) (month_of d))%Z.

(** [the_date + relativedelta(months=+1)]: the same day of the next
    month, or the last day of that month if it is shorter; a year
    after 9999 cannot be represented. *)
Definition plus_one_month (d : date) : outcome date :=
  let '(y, m) := if (month_of d + 1 >? 12)%Z
                 then (year_of d + 1, month_of d + 1 - 12)%Z
                 else (year_of d, month_of d + 1)%Z in
  if (y >? 9999)%Z then Exc "ValueError"
  else Val (mkDate y m (Z.min (days_in_month y m) (day_of d))).

(** [d.replace(day=1)] *)
Definition replace_day_1 (d : date) : date := mkDate (year_of d) (month_of d) 1.

(** [d - timedelta(days=1)]: the day before; there is none before [date.min]. *)
Definition minus_one_day (d : date) : outcome date :=
  if (1 <? day_of d)%Z then Val (mkDate (year_of d) (month_of d) (day_of d - 1))
  else if (1 <? month_of d)%Z
       then Val (mkDate (year_of d) (month_of d - 1)
                        (days_in_month (year_of d) (month_of d - 1)))
       else if (1 <? year_of d)%Z then Val (mkDate (year_of d - 1) 12 31)
            else Exc "OverflowError".

Definition last_day_of_month (the_date : date) : outcome date :=
  match plus_one_month the_date with
  | Val d => minus_one_day (replace_day_1 d)
  | Exc msg => Exc msg
  | OutOfFuel => OutOfFuel
  end.

Definition last_day_of_last_month (the_date : date) : outcome date :=
  minus_one_day (replace_day_1 the_date).

(* ================================================================= *)
(** ** DbConnection *)

Definition upper_ascii (c : ascii) : ascii :=
  let n := nat_of_ascii c in
  if (97 <=? n)%nat && (n <=? 122)%nat then ascii_of_nat (n - 32) else c.

(** Python's [s.upper()] on ASCII text. *)
Fixpoint upper (s : string) : string :=
  match s with
  | EmptyString => EmptyString
  | String c s' => String (upper_ascii c) (upper s')
  end.

Definition providers : list string := ["MSSQL"; "PG"; "MYSQL"].

(** [DbConnection.__init__], as far as the provider goes: it is checked
    in upper case and kept as it was given; the value is
    [self.provider]. *)
Definition DbConnection_init (provider : string) : outcome string :=
  if existsb (String.eqb (upper provider)) providers then Val provider
  else Exc "Provider não suportado (utilize MSSQL, PG ou MYSQL) :P".

(** [DbConnection.__enter__]: the provider is compared as it was given;
    [connects] tells whether the driver can open the connection.  When
    no branch is taken [self.conn] was never set. *)
Definition DbConnection_enter (provider : string) (connects : bool) : outcome unit :=
  if (provider =? "MSSQL")%string then
    if connects then Val tt else Exc "MsSql connection failed."
  else if (provider =? "PG")%string then
    if connects then Val tt else Exc "PG connection failed."
  else if (provider =? "MYSQL")%string then
    if connects then Val tt else Exc "MYSQL connection failed."
  else Exc "AttributeError".

(* ================================================================= *)
(** * Properties *)

(* ----------------------------------------------------------------- *)
(** ** Calls in a world without faults *)

Lemma fault_free_log e w : fault_free w -> fault_free (log e w).
Proof. intros H l t. apply H. Qed.

Lemma fault_free_set_cursor c w : fault_free w -> fault_free (set_cursor c w).
Proof. intros H l t. apply H. Qed.

Lemma fault_free_set_visible v w : fault_free w -> fault_free (set_visible v w).
Proof. intros H l t. apply H. Qed.

Lemma fault_free_set_committed c w : fault_free w -> fault_free (set_committed c w).
Proof. intros H l t. apply H. Qed.

Create HintDb ff.
#[export] Hint Resolve fault_free_log fault_free_set_cursor fault_free_set_visible
  fault_free_set_committed : ff.

Lemma db_call_ok {A} l s c (effect : world -> A * world) w :
  fault_free w ->
  db_call l s c effect w =
  (Val (fst (effect (log (mkEv l s c true) w))), snd (effect (log (mkEv l s c true) w))).
Proof.
  intros H. unfold db_call. rewrite H. destruct (effect _); reflexivity.
Qed.

Lemma dst_executemany_ok l sql rows w :
  fault_free w ->
  dst_executemany l sql rows w =
  (Val tt, set_visible (dst_visible w ++ rows)
             (log (mkEv l Destination (Executemany sql rows) true) w)).
Proof. intros H. unfold dst_executemany. rewrite db_call_ok by assumption. reflexivity. Qed.

Lemma src_fetchmany_ok l size w :
  fault_free w ->
  src_fetchmany l size w =
  (Val (firstn size (src_cursor w)),
   set_cursor (skipn size (src_cursor w))
     (log (mkEv l Source (Fetchmany size (firstn size (src_cursor w))) true) w)).
Proof. intros H. unfold src_fetchmany. rewrite db_call_ok by assumption. reflexivity. Qed.


Lemma src_execute_ok l sql params w :
  fault_free w ->
  src_execute l sql params w =
  (Val tt, set_cursor (src_answer w params)
             (log (mkEv l Source (Execute sql params) true) w)).
Proof. intros H. unfold src_execute. rewrite db_call_ok by assumption. reflexivity. Qed.

Lemma dst_commit_ok l w :
  fault_free w ->
  dst_commit l w =
  (Val tt, set_committed (dst_visible w) (log (mkEv l Destination Commit true) w)).
Proof. intros H. unfold dst_commit. rewrite db_call_ok by assumption. reflexivity. Qed.

Lemma dst_execute_ok l sql w :
  fault_free w ->
  dst_execute l sql w =
  (Val tt, let w' := log (mkEv l Destination (Execute sql []) true) w in
           if prefix "TRUNCATE TABLE " sql then set_visible [] w' else w').
Proof. intros H. unfold dst_execute. rewrite db_call_ok by assumption. reflexivity. Qed.

(* ----------------------------------------------------------------- *)
(** ** Arithmetic of chunks *)

Lemma ceil_div_0 c : 0 < c -> ceil_div 0 c = 0.
Proof. intros H. unfold ceil_div. apply Nat.div_small. lia. Qed.

Lemma ceil_div_step n c : 0 < c -> 0 < n -> ceil_div n c = S (ceil_div (n - c) c).
Proof.
  intros Hc Hn. unfold ceil_div.
  destruct (Nat.le_gt_cases n c) as [Hle | Hgt].
  - replace (n - c) with 0 by lia.
    replace (n + c - 1) with (1 * c + (n - 1)) by lia.
    rewrite Nat.div_add_l by lia.
    rewrite (Nat.div_small (n - 1)) by lia.
    rewrite (Nat.div_small (0 + c - 1)) by lia. reflexivity.
  - replace (n + c - 1) with (1 * c + (n - c + c - 1)) by lia.
    rewrite Nat.div_add_l by lia. reflexivity.
Qed.

(* ----------------------------------------------------------------- *)
(** ** The chunk loop *)

Lemma copy_loop_spec fuel insert c :
  0 < c ->
  forall pending rows_inserted w,
    fault_free w ->
    src_cursor w = skipn c pending ->
    List.length pending <= fuel ->
    exists w' new,
      copy_loop fuel insert c (firstn c pending) rows_inserted w =
        (Val (rows_inserted + List.length pending), w') /\
      trace w' = trace w ++ new /\
      fault_free w' /\
      src_cursor w' = [] /\
      dst_visible w' = dst_visible w ++ pending /\
      dst_committed w' = dst_committed w /\
      List.concat (batches new) = pending /\
      List.length (batches new) = ceil_div (List.length pending) c /\
      firstn c pending :: fetches new = batches new ++ [[]] /\
      Forall (fun b => b <> [] /\ List.length b <= c) (batches new) /\
      dst_calls new = map (Executemany insert) (batches new).
Proof.
  intros Hc. induction fuel as [|fuel IH]; intros pending ri w Hff Hcur Hfuel.
  - destruct pending; [|simpl in Hfuel; lia].
    exists w, []. rewrite firstn_nil. simpl. rewrite skipn_nil in Hcur.
    rewrite app_nil_r, app_nil_r, Nat.add_0_r, ceil_div_0 by assumption.
    repeat split; auto.
  - destruct pending as [|r pending].
    + exists w, []. rewrite firstn_nil. simpl. rewrite skipn_nil in Hcur.
      rewrite app_nil_r, app_nil_r, Nat.add_0_r, ceil_div_0 by assumption.
      repeat split; auto.
    + destruct c as [|c]; [lia|].
      remember (r :: pending) as p eqn:Hp.
      assert (Hne : firstn (S c) p = r :: firstn c pending) by (subst p; reflexivity).
      rewrite Hne. cbn [copy_loop]. rewrite <- Hne.
      unfold bind at 1. rewrite dst_executemany_ok by assumption.
      unfold bind at 1. rewrite src_fetchmany_ok by auto with ff.
      cbn [src_cursor set_visible set_cursor log].
      rewrite Hcur.
      set (w1 := set_cursor _ _).
      destruct (IH (skipn (S c) p) (ri + List.length (firstn (S c) p)) w1)
        as (w' & new & Hrun & Htr & Hff' & Hcur' & Hvis & Hcom & Hcat & Hlen & Hfet & Hall & Hdst).
      * subst w1; auto with ff.
      * reflexivity.
      * rewrite length_skipn. subst p. simpl in *. lia.
      * exists w'.
        exists (mkEv 335 Destination (Executemany insert (firstn (S c) p)) true ::
                mkEv 337 Source (Fetchmany (S c) (firstn (S c) (skipn (S c) p))) true :: new).
        rewrite Hrun.
        assert (Hlenp : List.length (firstn (S c) p) + List.length (skipn (S c) p) = List.length p).
        { rewrite <- length_app, firstn_skipn. reflexivity. }
        repeat split.
        -- f_equal. f_equal. lia.
        -- rewrite Htr. subst w1. cbn [trace set_cursor set_visible log].
           rewrite <- !app_assoc. reflexivity.
        -- assumption.
        -- assumption.
        -- rewrite Hvis. subst w1. cbn [dst_visible set_cursor set_visible log].
           rewrite <- app_assoc, firstn_skipn. reflexivity.
        -- rewrite Hcom. reflexivity.
        -- cbn [batches flat_map ev_call app List.concat]. fold (batches new).
           rewrite Hcat. apply firstn_skipn.
        -- cbn [batches flat_map ev_call app List.length]. fold (batches new).
           rewrite Hlen, length_skipn.
           symmetry. apply ceil_div_step; [lia | subst p; simpl; lia].
        -- cbn [batches fetches flat_map ev_call app]. fold (batches new). fold (fetches new).
           rewrite Hfet. reflexivity.
        -- cbn [batches flat_map ev_call app]. fold (batches new).
           constructor; [|assumption]. split.
           ++ rewrite Hne. discriminate.
           ++ apply firstn_le_length.
        -- cbn [batches dst_calls flat_map ev_call ev_side app map].
           fold (batches new). fold (dst_calls new). rewrite Hdst. reflexivity.
Qed.

(* ----------------------------------------------------------------- *)
(** ** Pieces shared by the copy functions *)

Lemma validate_db_string_ok source_table destination_table select_sql w :
  count_dots destination_table = 1 ->
  (truthy select_sql = false ->
   exists t, source_table = Some t /\ count_dots t = 1) ->
  validate_db_string source_table destination_table select_sql w = (Val tt, w).
Proof.
  intros Hd Hs. unfold validate_db_string, bind, assert. rewrite Hd. cbn.
  destruct (truthy select_sql); cbn; [reflexivity|].
  destruct Hs as (t & -> & Ht); [reflexivity|]. rewrite Ht. reflexivity.
Qed.

Lemma with_connections_ok {A} ls ld (body : M A) w :
  fault_free w ->
  with_connections ls ld body w =
  (fst (body (log (mkEv ld Destination Connect true) (log (mkEv ls Source Connect true) w))),
   snd (close_connections
          (snd (body (log (mkEv ld Destination Connect true)
                       (log (mkEv ls Source Connect true) w)))))).
Proof.
  intros H. unfold with_connections, bind.
  rewrite !db_call_ok by auto with ff. cbn [fst snd].
  destruct (body _); reflexivity.
Qed.

Lemma get_cols_name_ok destination_provider destination_table columns_to_ignore w :
  fault_free w ->
  destination_provider <> MYSQL ->
  exists e,
    get_cols_name destination_provider destination_table columns_to_ignore w =
    (Val (map (fun n => dquote +++ n +++ dquote)
            (filter (fun n => negb (existsb (String.eqb n) columns_to_ignore))
               (dst_columns w))), log e w) /\
    ev_side e = Destination /\
    ev_call e = Execute ("SELECT * FROM " +++ destination_table +++ " WHERE 1 = 2") [].
Proof.
  intros H Hp. unfold get_cols_name, bind.
  destruct destination_provider; [| |congruence];
    rewrite dst_execute_ok by assumption; cbn; eexists; repeat split.
Qed.

Lemma truncate_prefix destination_table cols wildcard_symbol :
  prefix "TRUNCATE TABLE " (snd (build_dest_sqls destination_table cols wildcard_symbol)) = true.
Proof. cbn. destruct destination_table; reflexivity. Qed.

Lemma copy_truncate_ok destination_truncate destination_provider truncate w :
  fault_free w ->
  prefix "TRUNCATE TABLE " truncate = true ->
  exists w' new,
    (if destination_truncate : bool then
       dst_execute 323 truncate ;;;
       match destination_provider with
       | MSSQL => dst_commit 325
       | _ => ret tt
       end
     else ret tt) w = (Val tt, w') /\
    trace w' = trace w ++ new /\
    fault_free w' /\
    src_rows w' = src_rows w /\
    dst_visible w' = (if destination_truncate then [] else dst_visible w) /\
    batches new = [] /\ fetches new = [] /\
    dst_calls new =
      (if destination_truncate
       then Execute truncate [] ::
            match destination_provider with MSSQL => [Commit] | _ => [] end
       else []).
Proof.
  intros Hff Hpre. destruct destination_truncate.
  - unfold bind. rewrite dst_execute_ok by assumption. cbn zeta. rewrite Hpre.
    destruct destination_provider.
    + rewrite dst_commit_ok by auto with ff.
      eexists.
      exists [mkEv 323 Destination (Execute truncate []) true;
              mkEv 325 Destination Commit true].
      repeat split; try reflexivity; auto with ff.
      cbn [trace set_committed set_visible log]. rewrite <- app_assoc. reflexivity.
    + eexists. exists [mkEv 323 Destination (Execute truncate []) true].
      repeat split; try reflexivity; auto with ff.
    + eexists. exists [mkEv 323 Destination (Execute truncate []) true].
      repeat split; try reflexivity; auto with ff.
  - exists w, []. rewrite app_nil_r. repeat split; auto.
Qed.


Lemma with_connections_run {A} ls ld (body : M A) w r w2 :
  fault_free w ->
  body (log (mkEv ld Destination Connect true) (log (mkEv ls Source Connect true) w)) = (r, w2) ->
  with_connections ls ld body w = (r, snd (close_connections w2)).
Proof.
  intros H Hb. rewrite with_connections_ok by assumption. rewrite Hb. reflexivity.
Qed.

Lemma batches_app a b : batches (a ++ b) = batches a ++ batches b.
Proof. apply flat_map_app. Qed.

Lemma fetches_app a b : fetches (a ++ b) = fetches a ++ fetches b.
Proof. apply flat_map_app. Qed.

Lemma dst_calls_app a b : dst_calls (a ++ b) = dst_calls a ++ dst_calls b.
Proof. apply flat_map_app. Qed.

(** Everything a run of [copy_db_to_db] without faults does. *)
Lemma copy_db_to_db_rows_spec
    fuel destination_table source_provider destination_provider
    source_table select_sql columns_to_ignore destination_truncate chunksize w :
  0 < chunksize ->
  fault_free w ->
  count_dots destination_table = 1 ->
  (truthy select_sql = false -> exists t, source_table = Some t /\ count_dots t = 1) ->
  destination_provider <> MYSQL ->
  List.length (src_rows w) <= fuel ->
  exists w' new,
    copy_db_to_db_rows fuel destination_table source_provider destination_provider
      source_table select_sql columns_to_ignore destination_truncate chunksize w =
      (Val (List.length (src_rows w)), w') /\
    trace w' = trace w ++ new /\
    List.concat (batches new) = src_rows w /\
    List.length (batches new) = ceil_div (List.length (src_rows w)) chunksize /\
    fetches new = batches new ++ [[]] /\
    Forall (fun b => b <> [] /\ List.length b <= chunksize) (batches new) /\
    dst_committed w' = (if destination_truncate then [] else dst_visible w) ++ src_rows w /\
    dst_visible w' = dst_committed w' /\
    fault_free w' /\
    dst_calls new =
      [Connect; Execute ("SELECT * FROM " +++ destination_table +++ " WHERE 1 = 2") []] ++
      (if destination_truncate
       then Execute ("TRUNCATE TABLE " +++ destination_table) [] ::
            match destination_provider with MSSQL => [Commit] | _ => [] end
       else []) ++
      map (Executemany
             (fst (build_dest_sqls destination_table
                     (map (fun n => dquote +++ n +++ dquote)
                        (filter (fun n => negb (existsb (String.eqb n) columns_to_ignore))
                           (dst_columns w)))
                     match destination_provider with MSSQL => "?" | _ => "%s" end)))
          (batches new) ++
      [Commit] /\
    In (mkEv 329 Source
          (Execute (if negb (truthy select_sql)
                    then build_select_sql (fmt source_table)
                           (map (fun n => dquote +++ n +++ dquote)
                              (filter (fun n => negb (existsb (String.eqb n) columns_to_ignore))
                                 (dst_columns w)))
                    else fmt select_sql) []) true) new.
Proof.
  intros Hc Hff Hd Hs Hp Hfuel.
  unfold copy_db_to_db_rows. unfold bind at 1.
  rewrite validate_db_string_ok by assumption.
  set (w0 := log (mkEv 298 Destination Connect true) (log (mkEv 297 Source Connect true) w)).
  assert (Hff0 : fault_free w0) by (subst w0; auto with ff).
  match goal with
  | |- context [with_connections _ _ ?body w] =>
      destruct (body w0) as [r w2] eqn:Hbody;
      rewrite (with_connections_run _ _ body w r w2 Hff Hbody)
  end.
  unfold bind at 1 in Hbody.
  destruct (get_cols_name_ok destination_provider destination_table columns_to_ignore w0 Hff0 Hp)
    as (e & He & Hes & Hec).
  rewrite He in Hbody. clear He.
  set (cols := map _ _) in Hbody.
  pose proof (truncate_prefix destination_table cols
                match destination_provider with MSSQL => "?" | _ => "%s" end) as Hpre.
  destruct (build_dest_sqls destination_table cols _) as [insert truncate] eqn:Hb.
  cbn [snd] in Hpre.
  unfold bind at 1 in Hbody.
  destruct (copy_truncate_ok destination_truncate destination_provider truncate (log e w0))
    as (w1 & new1 & Hrun1 & Htr1 & Hff1 & Hsrc1 & Hvis1 & Hb1 & Hf1 & Hd1); auto with ff.
  rewrite Hrun1 in Hbody. clear Hrun1.
  unfold bind at 1 in Hbody. rewrite src_execute_ok in Hbody by assumption.
  unfold bind at 1 in Hbody. rewrite src_fetchmany_ok in Hbody by auto with ff.
  cbn [src_cursor set_cursor log src_answer src_rows] in Hbody. rewrite Hsrc1 in Hbody.
  subst w0. cbn [src_rows log] in Hbody.
  unfold bind at 1 in Hbody.
  match type of Hbody with
  | context [copy_loop _ _ _ _ _ ?wl] =>
      destruct (copy_loop_spec fuel insert chunksize Hc (src_rows w) 0 wl)
        as (w3 & new3 & Hrun3 & Htr3 & Hff3 & Hcur3 & Hvis3 & Hcom3 & Hcat & Hlen & Hfet & Hall & Hdst);
      [auto with ff | reflexivity | assumption |]
  end.
  rewrite Hrun3 in Hbody. clear Hrun3.
  unfold bind at 1 in Hbody. rewrite dst_commit_ok in Hbody by assumption.
  unfold ret in Hbody. injection Hbody as <- <-.
  cbn [trace src_rows dst_visible dst_committed set_cursor set_visible set_committed log]
    in Htr1, Hsrc1, Hvis1, Htr3, Hvis3, Hcom3.
  eexists.
  exists ([mkEv 297 Source Connect true; mkEv 298 Destination Connect true; e] ++ new1 ++
          [mkEv 329 Source (Execute (if negb (truthy select_sql)
                                     then build_select_sql (fmt source_table) cols
                                     else fmt select_sql) []) true;
           mkEv 330 Source (Fetchmany chunksize (firstn chunksize (src_rows w))) true] ++
          new3 ++ [mkEv 340 Destination Commit true]).
  assert (Hbat : forall tail,
             batches ([mkEv 297 Source Connect true; mkEv 298 Destination Connect true; e] ++ new1 ++
               [mkEv 329 Source (Execute (if negb (truthy select_sql)
                                     then build_select_sql (fmt source_table) cols
                                     else fmt select_sql) []) true;
                mkEv 330 Source (Fetchmany chunksize (firstn chunksize (src_rows w))) true] ++
               new3 ++ tail) = batches new3 ++ batches tail).
  { intros tail. rewrite !batches_app, Hb1.
    cbn [batches flat_map ev_call app]. rewrite Hec. reflexivity. }
  rewrite Hbat. clear Hbat.
  replace (batches [mkEv 340 Destination Commit true]) with (@nil (list row)) by reflexivity.
  rewrite app_nil_r.
  repeat split.
  - cbn [trace set_cursor set_visible set_committed log close_connections snd].
    rewrite Htr3, Htr1. rewrite <- !app_assoc. reflexivity.
  - assumption.
  - assumption.
  - rewrite !fetches_app, Hf1. cbn [fetches flat_map ev_call app]. rewrite Hec.
    rewrite !app_nil_r. cbn [app]. assumption.
  - assumption.
  - cbn [dst_committed dst_visible set_cursor set_visible set_committed log close_connections snd].
    rewrite Hvis3, Hvis1. reflexivity.
  - cbn [close_connections snd]. auto with ff.
  - assert (Hins : insert = fst (build_dest_sqls destination_table cols
                 match destination_provider with MSSQL => "?" | _ => "%s" end))
      by (rewrite Hb; reflexivity).
    assert (Htrunc : truncate = "TRUNCATE TABLE " +++ destination_table)
      by (unfold build_dest_sqls in Hb; injection Hb; auto).
    rewrite !dst_calls_app, Hd1, Hdst, Hins, Htrunc.
    cbn [dst_calls flat_map ev_side ev_call app]. rewrite Hes, Hec.
    rewrite !app_nil_r. reflexivity.
  - apply in_or_app. right. apply in_or_app. right.
    apply in_or_app. left. left. reflexivity.
Qed.

(* ----------------------------------------------------------------- *)
(** ** copy_db_to_db: rows, round trips and commits *)

(** C1: for a chunk size greater than 0 and a source result set of N
    rows, a run of [copy_db_to_db] without faults returns having
    inserted N rows (the destination ends with what it had, or nothing
    after a truncate, followed by the N source rows in order); it makes
    exactly ceil(N / chunksize) [executemany] calls, one per non-empty
    fetch, each with between 1 and chunksize rows; and the only fetch
    that returns no row is the last one, after which the loop ends. *)
Theorem copy_db_to_db_inserts_all
    fuel destination_table source_provider destination_provider
    source_table select_sql columns_to_ignore destination_truncate chunksize w :
  0 < chunksize ->
  fault_free w ->
  count_dots destination_table = 1 ->
  (truthy select_sql = false -> exists t, source_table = Some t /\ count_dots t = 1) ->
  destination_provider <> MYSQL ->
  List.length (src_rows w) <= fuel ->
  exists w' new,
    copy_db_to_db_rows fuel destination_table source_provider destination_provider
      source_table select_sql columns_to_ignore destination_truncate chunksize w =
      (Val (List.length (src_rows w)), w') /\
    trace w' = trace w ++ new /\
    List.concat (batches new) = src_rows w /\
    List.length (batches new) = ceil_div (List.length (src_rows w)) chunksize /\
    fetches new = batches new ++ [[]] /\
    Forall (fun b => b <> [] /\ List.length b <= chunksize) (batches new) /\
    dst_committed w' = (if destination_truncate then [] else dst_visible w) ++ src_rows w.
Proof.
  intros Hc Hff Hd Hs Hp Hfuel.
  destruct (copy_db_to_db_rows_spec fuel destination_table source_provider
              destination_provider source_table select_sql columns_to_ignore
              destination_truncate chunksize w Hc Hff Hd Hs Hp Hfuel)
    as (w' & new & H1 & H2 & H3 & H4 & H5 & H6 & H7 & _).
  exists w', new. repeat split; assumption.
Qed.

(** The scenario of C1: 4 source rows, empty destination, chunk size 2. *)
Lemma copy_db_to_db_inserts_all_witness :
  exists w' new,
    copy_db_to_db_rows 4 "dbo.t" PG MSSQL (Some "src.t") None [] true 2
      (demo_world four_rows [] no_fault) = (Val 4, w') /\
    trace w' = [] ++ new /\
    List.concat (batches new) = four_rows /\
    List.length (batches new) = 2 /\
    fetches new = batches new ++ [[]] /\
    Forall (fun b => b <> [] /\ List.length b <= 2) (batches new) /\
    dst_committed w' = [] ++ four_rows.
Proof.
  apply (copy_db_to_db_inserts_all 4 "dbo.t" PG MSSQL (Some "src.t") None [] true 2
           (demo_world four_rows [] no_fault)).
  - lia.
  - intros l t. reflexivity.
  - reflexivity.
  - intros _. exists "src.t". split; reflexivity.
  - discriminate.
  - simpl. lia.
Defined.

(** The same scenario by evaluation: two [executemany] calls of two rows. *)
Example copy_db_to_db_four_rows_chunk_two :
  let w' := snd (copy_db_to_db_rows 4 "dbo.t" PG MSSQL (Some "src.t") None [] true 2
                   (demo_world four_rows [] no_fault)) in
  batches (trace w') = [map demo_row [1; 2]%Z; map demo_row [3; 4]%Z] /\
  dst_committed w' = four_rows.
Proof. vm_compute. split; reflexivity. Qed.

(** C6, as stated, fails: with 4 source rows and chunk size 2 the two
    [executemany] calls follow each other with no commit between them. *)
Lemma copy_db_to_db_commit_per_chunk_counterexample :
  commit_after_each_insert
    (dst_calls (trace (snd (copy_db_to_db_rows 4 "dbo.t" PG MSSQL (Some "src.t") None []
                              true 2 (demo_world four_rows [] no_fault))))) = false.
Proof. vm_compute. reflexivity. Qed.

(** C6, amended: in a run of [copy_db_to_db] without faults the calls
    on the destination are: connect, the zero-row probe, the truncate
    when asked for (committed at once for MSSQL only), then one
    [executemany] per chunk with no commit between them, then exactly
    one commit after the last chunk. *)
Theorem copy_db_to_db_single_commit
    fuel destination_table source_provider destination_provider
    source_table select_sql columns_to_ignore destination_truncate chunksize w :
  0 < chunksize ->
  fault_free w ->
  count_dots destination_table = 1 ->
  (truthy select_sql = false -> exists t, source_table = Some t /\ count_dots t = 1) ->
  destination_provider <> MYSQL ->
  List.length (src_rows w) <= fuel ->
  exists w' new,
    copy_db_to_db_rows fuel destination_table source_provider destination_provider
      source_table select_sql columns_to_ignore destination_truncate chunksize w =
      (Val (List.length (src_rows w)), w') /\
    trace w' = trace w ++ new /\
    dst_calls new =
      [Connect; Execute ("SELECT * FROM " +++ destination_table +++ " WHERE 1 = 2") []] ++
      (if destination_truncate
       then Execute ("TRUNCATE TABLE " +++ destination_table) [] ::
            match destination_provider with MSSQL => [Commit] | _ => [] end
       else []) ++
      map (Executemany
             (fst (build_dest_sqls destination_table
                     (map (fun n => dquote +++ n +++ dquote)
                        (filter (fun n => negb (existsb (String.eqb n) columns_to_ignore))
                           (dst_columns w)))
                     match destination_provider with MSSQL => "?" | _ => "%s" end)))
          (batches new) ++
      [Commit].
Proof.
  intros Hc Hff Hd Hs Hp Hfuel.
  destruct (copy_db_to_db_rows_spec fuel destination_table source_provider
              destination_provider source_table select_sql columns_to_ignore
              destination_truncate chunksize w Hc Hff Hd Hs Hp Hfuel)
    as (w' & new & H1 & H2 & _ & _ & _ & _ & _ & _ & _ & H3 & _).
  exists w', new. repeat split; assumption.
Qed.

Lemma copy_db_to_db_single_commit_witness :
  exists w' new,
    copy_db_to_db_rows 4 "dbo.t" PG PG (Some "src.t") None [] false 2
      (demo_world four_rows [] no_fault) = (Val 4, w') /\
    trace w' = [] ++ new /\
    dst_calls new =
      [Connect; Execute "SELECT * FROM dbo.t WHERE 1 = 2" []] ++ [] ++
      map (Executemany
             (fst (build_dest_sqls "dbo.t"
                     (map (fun n => dquote +++ n +++ dquote) ["id"; "name"]) "%s")))
          (batches new) ++
      [Commit].
Proof.
  apply (copy_db_to_db_single_commit 4 "dbo.t" PG PG (Some "src.t") None [] false 2
           (demo_world four_rows [] no_fault)).
  - lia.
  - intros l t. reflexivity.
  - reflexivity.
  - intros _. exists "src.t". split; reflexivity.
  - discriminate.
  - simpl. lia.
Defined.

(* ----------------------------------------------------------------- *)
(** ** Calls that may raise *)

Lemma db_call_cases {A} l s c (effect : world -> A * world) w :
  (fault w l (clock w) = false /\
   db_call l s c effect w =
   (Val (fst (effect (log (mkEv l s c true) w))), snd (effect (log (mkEv l s c true) w))))
  \/
  (fault w l (clock w) = true /\
   db_call l s c effect w = (Exc "database error", log (mkEv l s c false) w)).
Proof.
  unfold db_call. destruct (fault w l (clock w)).
  - right. split; reflexivity.
  - left. split; [reflexivity|]. destruct (effect _); reflexivity.
Qed.


Lemma stepped_trans w1 w2 w3 a b :
  stepped w1 w2 a -> stepped w2 w3 b -> stepped w1 w3 (a ++ b).
Proof.
  intros (T1 & S1 & F1) (T2 & S2 & F2). unfold stepped.
  rewrite T2, T1, S2, S1, F2, F1, app_assoc. auto.
Qed.

Lemma selects_app a b : selects (a ++ b) = selects a ++ selects b.
Proof. apply flat_map_app. Qed.









(* ----------------------------------------------------------------- *)
(** ** copy_by_key_interval, whatever raises *)







Lemma with_connections_cases {A} ls ld (body : M A) w :
  (exists msg e, with_connections ls ld body w = (Exc msg, log e w) /\
                 fault w ls (clock w) = true)
  \/
  (exists msg w', with_connections ls ld body w = (Exc msg, w') /\
                  stepped w w' [mkEv ls Source Connect true; mkEv ld Destination Connect false] /\
                  dst_visible w' = dst_committed w' /\
                  dst_committed w' = dst_committed w /\
                  exists t, fault w ld t = true)
  \/
  (with_connections ls ld body w =
   (fst (body (log (mkEv ld Destination Connect true) (log (mkEv ls Source Connect true) w))),
    snd (close_connections
           (snd (body (log (mkEv ld Destination Connect true)
                        (log (mkEv ls Source Connect true) w))))))).
Proof.
  unfold with_connections, bind.
  destruct (db_call_cases ls Source Connect (fun w0 => (tt, w0)) w) as [[_ ->] | [Hf ->]].
  - cbn [fst snd].
    match goal with
    | |- context [db_call ld _ _ ?eff ?w1] =>
        destruct (db_call_cases ld Destination Connect eff w1) as [[_ ->] | [Hf ->]]
    end.
    + right. right. cbn [fst snd]. destruct (body _). reflexivity.
    + right. left. eexists. eexists. split; [reflexivity|].
      split; [unfold stepped; cbn; rewrite <- app_assoc; auto|].
      cbn. repeat split. eexists. exact Hf.
  - left. eauto.
Qed.


(* ----------------------------------------------------------------- *)
(** ** Arithmetic of intervals *)






(* ----------------------------------------------------------------- *)
(** ** copy_by_key_interval without faults *)


(* ----------------------------------------------------------------- *)
(** ** The intervals of a run *)




(** The scenario of C2 by evaluation: key_start 0, interval 10,
    maximum key 25. *)
Example copy_by_key_interval_scenario :
  let r := copy_by_key_interval 3 PG "src.t" MSSQL "dbo.t" "id" 0 10 true
             (demo_world three_rows [] no_fault) in
  fst r = Val (true, None) /\
  selects (trace (snd r)) = [(0, 9); (10, 19); (20, 29); (30, 39)]%Z /\
  batches (trace (snd r)) = [[demo_row 3]; [demo_row 12]; [demo_row 25]] /\
  dst_committed (snd r) = three_rows.
Proof. vm_compute. repeat split; reflexivity. Qed.

(* ----------------------------------------------------------------- *)
(** ** Failures inside the transfer *)



(** A write that raises at the commit of the second interval: the
    function returns [(False, 10)], the first interval stays
    committed, the second is rolled back. *)
Example copy_by_key_interval_write_failure :
  let r := copy_by_key_interval 3 PG "src.t" MSSQL "dbo.t" "id" 0 10 true
             (demo_world three_rows [] (once_at 757 13)) in
  fst r = Val (false, Some 10%Z) /\
  dst_committed (snd r) = [demo_row 3] /\
  dst_visible (snd r) = [demo_row 3] /\
  map ev_line (failures (trace (snd r))) = [757].
Proof. vm_compute. repeat split; reflexivity. Qed.

(** A read that raises at the SELECT of the third interval: the
    function returns [(False, 20)]. *)
Example copy_by_key_interval_read_failure :
  let r := copy_by_key_interval 3 PG "src.t" MSSQL "dbo.t" "id" 0 10 true
             (demo_world three_rows [] (once_at 768 14)) in
  fst r = Val (false, Some 20%Z) /\
  dst_committed (snd r) = [demo_row 3; demo_row 12] /\
  map ev_line (failures (trace (snd r))) = [768].
Proof. vm_compute. repeat split; reflexivity. Qed.

(* ----------------------------------------------------------------- *)
(** ** Resuming *)



(* ----------------------------------------------------------------- *)
(** ** A source whose maximum key is 0 *)






(** By evaluation: the first SELECT fetches the two rows of the
    source, and none reaches the destination. *)
Example copy_by_key_interval_discards_first_fetch :
  let r := copy_by_key_interval 0 PG "src.t" MSSQL "dbo.t" "id" (-5) 10 true
             (demo_world low_rows [demo_row 7] no_fault) in
  fst r = Val (true, None) /\
  fetchalls (trace (snd r)) = [low_rows] /\
  batches (trace (snd r)) = [] /\
  dst_committed (snd r) = [].
Proof. vm_compute. repeat split; reflexivity. Qed.

(* ----------------------------------------------------------------- *)
(** ** copy_by_key_with_retry when every first read raises *)






(** C5 does not hold of the code: with retries = 0 and a source whose
    first read always raises, [copy_by_key_with_retry] calls
    [copy_by_key_interval] twice, one call more than retries + 1. *)
Theorem copy_by_key_with_retry_zero_retries :
  let r := copy_by_key_with_retry_status 5 3 PG "src.t" MSSQL "dbo.t" "id" 0 10 true 0 600
             (demo_world three_rows [] (always_at 729)) in
  fst r = Val (false, Some 0%Z) /\
  invocations (trace (snd r)) = 2.
Proof. vm_compute. split; reflexivity. Qed.

(** The same with retries = 3: five calls. *)
Example copy_by_key_with_retry_three_retries :
  invocations
    (trace (snd (copy_by_key_with_retry 5 3 PG "src.t" MSSQL "dbo.t" "id" 0 10 true 3 600
                   (demo_world three_rows [] (always_at 729))))) = 5.
Proof. vm_compute. reflexivity. Qed.

(* ----------------------------------------------------------------- *)
(** ** Calls and exceptions of composed computations *)

Lemma emits_weaken {A} L L' E E' (m : M A) :
  incl L L' -> incl E E' -> emits L E m -> emits L' E' m.
Proof.
  intros HL HE H w r w' Hrun. destruct (H w r w' Hrun) as ((new & Htr & Hall) & Hexc).
  split.
  - exists new. split; [assumption|]. eapply Forall_impl; [|exact Hall].
    intros e He. apply HL. exact He.
  - intros msg Hm. apply HE. auto.
Qed.

Lemma emits_ret {A} L E (a : A) : emits L E (ret a).
Proof.
  intros w r w' Hrun. injection Hrun as <- <-. split.
  - exists []. rewrite app_nil_r. auto.
  - discriminate.
Qed.

Lemma emits_raise {A} L E msg : In msg E -> emits L E (@raise A msg).
Proof.
  intros Hin w r w' Hrun. injection Hrun as <- <-. split.
  - exists []. rewrite app_nil_r. auto.
  - intros m Hm. injection Hm as <-. assumption.
Qed.

Lemma emits_bind {A B} L E (m : M A) (k : A -> M B) :
  emits L E m -> (forall a, emits L E (k a)) -> emits L E (bind m k).
Proof.
  intros Hm Hk w r w' Hrun. unfold bind in Hrun.
  destruct (m w) as [[a|msg|] w1] eqn:Hmw.
  - destruct (Hm w _ _ Hmw) as ((n1 & Ht1 & Ha1) & _).
    destruct (Hk a w1 r w' Hrun) as ((n2 & Ht2 & Ha2) & Hexc).
    split; [|assumption].
    exists (n1 ++ n2). rewrite Ht2, Ht1, app_assoc. split; [reflexivity|].
    apply Forall_app. auto.
  - injection Hrun as <- <-. destruct (Hm w _ _ Hmw) as (Htr & Hexc).
    split; [exact Htr|]. intros m0 Hm0. injection Hm0 as <-. apply Hexc. reflexivity.
  - injection Hrun as <- <-. destruct (Hm w _ _ Hmw) as (Htr & Hexc).
    split; [exact Htr|]. discriminate.
Qed.

Lemma emits_db_call {A} L E l s c (effect : world -> A * world) :
  In l L -> In "database error" E ->
  (forall w, trace (snd (effect w)) = trace w) ->
  emits L E (db_call l s c effect).
Proof.
  intros Hl He Heff w r w' Hrun.
  destruct (db_call_cases l s c effect w) as [[_ Hc] | [_ Hc]];
    rewrite Hc in Hrun; injection Hrun as <- <-.
  - split; [|discriminate].
    exists [mkEv l s c true]. rewrite Heff. split; [reflexivity|].
    constructor; auto.
  - split.
    + exists [mkEv l s c false]. split; [reflexivity|]. constructor; auto.
    + intros msg Hm. injection Hm as <-. assumption.
Qed.

Lemma emits_dst_execute L E l sql :
  In l L -> In "database error" E -> emits L E (dst_execute l sql).
Proof.
  intros. apply emits_db_call; auto. intros w. cbn. destruct (prefix _ _); reflexivity.
Qed.

Lemma emits_dst_executemany L E l sql rows :
  In l L -> In "database error" E -> emits L E (dst_executemany l sql rows).
Proof. intros. apply emits_db_call; auto. Qed.

Lemma emits_dst_commit L E l :
  In l L -> In "database error" E -> emits L E (dst_commit l).
Proof. intros. apply emits_db_call; auto. Qed.

Lemma emits_src_execute L E l sql params :
  In l L -> In "database error" E -> emits L E (src_execute l sql params).
Proof. intros. apply emits_db_call; auto. Qed.

Lemma emits_src_fetchmany L E l size :
  In l L -> In "database error" E -> emits L E (src_fetchmany l size).
Proof.
  intros Hl He w r w' Hrun. unfold src_fetchmany in Hrun.
  eapply emits_db_call; [exact Hl | exact He | | exact Hrun]. reflexivity.
Qed.

Lemma emits_hook_get_first L E l s sql :
  In l L -> In "database error" E -> emits L E (hook_get_first l s sql).
Proof. intros. apply emits_db_call; auto. Qed.

Lemma emits_hook_get_records L E l s sql :
  In l L -> In "database error" E -> emits L E (hook_get_records l s sql).
Proof. intros. apply emits_db_call; auto. Qed.

Lemma emits_hook_run L E l s sql :
  In l L -> In "database error" E -> emits L E (hook_run l s sql).
Proof. intros. apply emits_db_call; auto. Qed.

Lemma emits_with_connections {A} L E ls ld (body : M A) :
  In ls L -> In ld L -> In "database error" E ->
  emits L E body -> emits L E (with_connections ls ld body).
Proof.
  intros Hls Hld He Hb. unfold with_connections.
  apply emits_bind; [apply emits_db_call; auto|].
  intros _ w r w' Hrun.
  match type of Hrun with
  | context [db_call ld _ _ ?eff w] =>
      destruct (db_call_cases ld Destination Connect eff w) as [[_ Hd] | [_ Hd]];
        rewrite Hd in Hrun
  end.
  - cbn [fst snd] in Hrun. destruct (body _) as [rb wb] eqn:Hbody.
    destruct (Hb _ _ _ Hbody) as ((nb & Htb & Hab) & Hexc).
    injection Hrun as <- <-. split; [|assumption].
    exists ([mkEv ld Destination Connect true] ++ nb).
    cbn [trace close_connections set_cursor set_visible snd]. rewrite Htb. cbn [trace log].
    rewrite <- !app_assoc. split; [reflexivity|].
    apply Forall_app. split; [repeat constructor; assumption | assumption].
  - injection Hrun as <- <-. split.
    + exists [mkEv ld Destination Connect false]. split; [reflexivity|].
      repeat constructor; assumption.
    + intros m Hm. injection Hm as <-. assumption.
Qed.

Ltac emits_step :=
  first
    [ apply emits_ret
    | apply emits_raise; cbn; tauto
    | apply emits_dst_execute; cbn; tauto
    | apply emits_dst_executemany; cbn; tauto
    | apply emits_dst_commit; cbn; tauto
    | apply emits_src_execute; cbn; tauto
    | apply emits_src_fetchmany; cbn; tauto
    | apply emits_hook_get_first; cbn; tauto
    | apply emits_hook_get_records; cbn; tauto
    | apply emits_hook_run; cbn; tauto
    | apply emits_bind; [|intros ?]
    | match goal with
      | |- emits _ _ (if ?b then _ else _) => destruct b
      | |- emits _ _ (match ?x with _ => _ end) => destruct x
      | |- emits _ _ (let '(_, _) := ?x in _) => destruct x
      end ].

Lemma emits_validate_db_string L source_table destination_table select_sql :
  emits L sync_messages (validate_db_string source_table destination_table select_sql).
Proof. unfold validate_db_string, assert. repeat emits_step. Qed.

Lemma emits_get_cols_name destination_provider destination_table columns_to_ignore :
  emits copy_lines sync_messages
    (get_cols_name destination_provider destination_table columns_to_ignore).
Proof.
  unfold get_cols_name. apply emits_bind; [|intros ?; apply emits_ret].
  destruct destination_provider.
  - apply emits_bind; [emits_step|]. intros _ w r w' Hrun. injection Hrun as <- <-.
    split; [exists []; rewrite app_nil_r; auto | discriminate].
  - apply emits_bind; [emits_step|]. intros _ w r w' Hrun. injection Hrun as <- <-.
    split; [exists []; rewrite app_nil_r; auto | discriminate].
  - emits_step.
Qed.

Lemma emits_copy_loop insert chunksize : forall fuel rows rows_inserted,
  emits copy_lines sync_messages (copy_loop fuel insert chunksize rows rows_inserted).
Proof.
  induction fuel as [|fuel IH]; intros rows ri; destruct rows as [|row0 rows]; cbn [copy_loop].
  - emits_step.
  - intros w r w' Hrun. injection Hrun as <- <-.
    split; [exists []; rewrite app_nil_r; auto | discriminate].
  - emits_step.
  - apply emits_bind; [emits_step|]. intros _.
    apply emits_bind; [emits_step|]. intros rows'. apply IH.
Qed.

Lemma emits_copy_db_to_db fuel destination_table source_provider destination_provider
    source_table select_sql columns_to_ignore destination_truncate chunksize :
  emits copy_lines sync_messages
    (copy_db_to_db fuel destination_table source_provider destination_provider
       source_table select_sql columns_to_ignore destination_truncate chunksize).
Proof.
  unfold copy_db_to_db, copy_db_to_db_rows.
  apply emits_bind; [|intros ?; apply emits_ret].
  apply emits_bind; [apply emits_validate_db_string|]. intros _.
  apply emits_with_connections; [cbn; tauto | cbn; tauto | cbn; tauto |].
  apply emits_bind; [apply emits_get_cols_name|]. intros cols.
  destruct (build_dest_sqls _ _ _) as [insert truncate].
  apply emits_bind.
  { destruct destination_truncate; [|emits_step].
    apply emits_bind; [emits_step|]. intros _.
    destruct destination_provider; emits_step. }
  intros _. apply emits_bind; [emits_step|]. intros _.
  apply emits_bind; [emits_step|]. intros rows.
  apply emits_bind; [apply emits_copy_loop|]. intros n.
  apply emits_bind; [emits_step|]. intros _. emits_step.
Qed.

Lemma emits_get_table_cols_name schema table :
  emits staging_lines ["Conn_type not implemented."; "database error"]
    (get_table_cols_name schema table).
Proof.
  intros w r w' Hrun. unfold get_table_cols_name in Hrun.
  destruct (dst_conn_type w).
  - eapply emits_db_call; [| | |exact Hrun]; cbn; auto.
  - eapply emits_db_call; [| | |exact Hrun]; cbn; auto.
  - eapply emits_raise; [|exact Hrun]. cbn. auto.
Qed.

Lemma emits_table_rows_count s table where_condition :
  emits staging_lines sync_messages (_table_rows_count s table where_condition).
Proof. unfold _table_rows_count. emits_step. Qed.

Lemma emits_build_filter_condition table date_column key_column :
  emits staging_lines sync_messages (_build_filter_condition table date_column key_column).
Proof. unfold _build_filter_condition. repeat emits_step. Qed.

(* ----------------------------------------------------------------- *)
(** ** sync_db_2_db: the empty destination *)

(** C9: whatever raises, [sync_db_2_db] on a destination whose row
    count is 0 ends with an exception after at most two calls, the
    column probe (line 143) and the row count (line 362): no staging
    copy, no index rebuild, no merge, no delete propagation is made,
    and the tables are untouched; when those two calls return, the
    exception is the one that tells to use a full load.  On a
    destination whose row count is not 0 that exception is never
    raised. *)
Theorem sync_db_2_db_empty_destination fuel table date_column key_column source_schema
    destination_schema increment_schema sync_exclusions source_exc_schema source_exc_table
    source_exc_column chunksize w :
  let run := sync_db_2_db fuel table date_column key_column source_schema destination_schema
               increment_schema sync_exclusions source_exc_schema source_exc_table
               source_exc_column chunksize w in
  if is_zero (hook_first w Destination (count_sql destination_schema table))
  then
    exists msg new,
      fst run = Exc msg /\
      trace (snd run) = trace w ++ new /\
      Forall (fun e => In (ev_line e) [143; 362]) new /\
      dst_visible (snd run) = dst_visible w /\
      dst_committed (snd run) = dst_committed w /\
      (dst_conn_type w <> other_conn -> failures new = [] ->
       msg = empty_destination /\ List.length new = 2)
  else
    fst run <> Exc empty_destination.
Proof.
  intros run. subst run.
  destruct (sync_db_2_db _ _ _ _ _ _ _ _ _ _ _ _ w) as [r w'] eqn:Hrun.
  cbn [fst snd].
  unfold sync_db_2_db in Hrun. cbv zeta in Hrun.
  unfold bind at 1 in Hrun. cbv beta iota in Hrun. unfold bind at 1 in Hrun.
  unfold get_table_cols_name in Hrun.
  destruct (dst_conn_type w) eqn:Hct.
  3:{ (* neither mssql nor postgres *)
      unfold raise at 1 in Hrun. injection Hrun as <- <-.
      destruct (is_zero _).
      - exists "Conn_type not implemented.", []. rewrite app_nil_r.
        repeat split; auto; congruence.
      - discriminate. }
  all: match type of Hrun with
       | context [db_call 143 _ ?c ?eff ?w1] =>
           destruct (db_call_cases 143 Destination c eff w1) as [[_ Hc] | [_ Hc]];
             rewrite Hc in Hrun; clear Hc
       end.
  2,4: (injection Hrun as <- <-; destruct (is_zero _);
        [ eexists; eexists [_]; repeat split; try reflexivity;
          try (repeat constructor; cbn; tauto);
          match goal with Hfl : failures _ = [] |- _ => cbn in Hfl; discriminate Hfl end
        | discriminate ]).
  all: cbn [fst snd] in Hrun.
  all: unfold bind at 1 in Hrun; unfold ret at 1 in Hrun.
  all: unfold bind at 1 in Hrun; unfold _table_rows_count at 1 in Hrun;
    unfold hook_get_first at 1 in Hrun.
  all: match type of Hrun with
       | context [db_call 362 _ ?c ?eff ?w1] =>
           destruct (db_call_cases 362 Destination c eff w1) as [[_ Hc] | [_ Hc]];
             rewrite Hc in Hrun; clear Hc
       end.
  2,4: (injection Hrun as <- <-; destruct (is_zero _);
        [ eexists; eexists [_; _]; cbn [trace log dst_visible dst_committed];
          rewrite <- app_assoc; repeat split; try reflexivity;
          try (repeat constructor; cbn; tauto);
          match goal with Hfl : failures _ = [] |- _ => cbn in Hfl; discriminate Hfl end
        | discriminate ]).
  all: cbn [fst snd hook_first log] in Hrun.
  all: fold (count_sql destination_schema table) in Hrun.
  all: destruct (is_zero (hook_first w Destination (count_sql destination_schema table))) eqn:Hz.
  1,3: (unfold raise in Hrun; injection Hrun as <- <-;
        eexists; eexists [_; _]; cbn [trace log dst_visible dst_committed];
        rewrite <- app_assoc; repeat split; try reflexivity;
        repeat constructor; cbn; tauto).
  (* the destination is not empty: what follows raises other messages *)
  all: match type of Hrun with
       | ?rest ?w1 = _ =>
           assert (Hem : emits (staging_lines ++ [577; 579] ++ delete_lines) sync_messages rest);
             [| destruct (Hem _ _ _ Hrun) as (_ & Hexc);
                intros ->; specialize (Hexc _ eq_refl);
                cbn in Hexc; unfold empty_destination in Hexc;
                intuition discriminate ]
       end.
  all: apply emits_bind;
    [ eapply emits_weaken; [| |apply emits_build_filter_condition];
      auto 20 using incl_refl, incl_appl |].
  all: intros [ref_value where_condition].
  all: apply emits_bind;
    [ eapply emits_weaken; [| |apply emits_table_rows_count];
      auto 20 using incl_refl, incl_appl |].
  all: intros _.
  all: apply emits_bind;
    [ eapply emits_weaken; [| |apply emits_copy_db_to_db];
      [unfold staging_lines; auto 20 using incl_refl, incl_appl, incl_appr | apply incl_refl] |].
  all: intros _.
  all: apply emits_bind; [emits_step|].
  all: intros sql.
  all: apply emits_bind; [emits_step|].
  all: intros _.
  all: destruct (_build_incremental_sqls _ _ _ _) as [updates_sql inserts_sql].
  all: repeat emits_step.
Qed.

(* ----------------------------------------------------------------- *)
(** ** sync_db_2_db: the order of the merge, whatever raises *)

Lemma merge_calls_app a b : merge_calls (a ++ b) = merge_calls a ++ merge_calls b.
Proof. apply filter_app. Qed.

Lemma merge_calls_quiet L new :
  Forall (fun e => In (ev_line e) L) new -> ~ In 577 L -> ~ In 579 L ->
  merge_calls new = [].
Proof.
  intros Hall H7 H9. induction Hall as [|e new He _ IH]; [reflexivity|].
  cbn [merge_calls filter]. fold (merge_calls new). rewrite IH.
  destruct (Nat.eqb (ev_line e) 577) eqn:E7.
  - apply Nat.eqb_eq in E7. rewrite E7 in He. contradiction.
  - destruct (Nat.eqb (ev_line e) 579) eqn:E9; [|reflexivity].
    apply Nat.eqb_eq in E9. rewrite E9 in He. contradiction.
Qed.

Lemma merge_ordered_quiet {A} u i L E (m : M A) :
  emits L E m -> ~ In 577 L -> ~ In 579 L -> merge_ordered u i m.
Proof.
  intros Hm H7 H9 w r w' Hrun.
  destruct (Hm w r w' Hrun) as ((new & Htr & Hall) & _).
  exists new. split; [assumption|]. left. eapply merge_calls_quiet; eassumption.
Qed.

Lemma merge_ordered_bind {A B} u i L E (m : M A) (k : A -> M B) :
  emits L E m -> ~ In 577 L -> ~ In 579 L ->
  (forall a, merge_ordered u i (k a)) ->
  merge_ordered u i (bind m k).
Proof.
  intros Hm H7 H9 Hk w r w' Hrun. unfold bind in Hrun.
  destruct (m w) as [[a|msg|] w1] eqn:Hmw;
    destruct (Hm w _ _ Hmw) as ((n1 & Ht1 & Ha1) & _).
  - destruct (Hk a w1 r w' Hrun) as (n2 & Ht2 & Hshape).
    exists (n1 ++ n2). rewrite Ht2, Ht1, app_assoc. split; [reflexivity|].
    rewrite merge_calls_app, (merge_calls_quiet L n1) by assumption. exact Hshape.
  - injection Hrun as <- <-. exists n1. split; [assumption|].
    left. eapply merge_calls_quiet; eassumption.
  - injection Hrun as <- <-. exists n1. split; [assumption|].
    left. eapply merge_calls_quiet; eassumption.
Qed.

(** The merge itself: the UPDATE, then the INSERT, then whatever
    follows, which makes no call at the lines of the merge. *)
Lemma merge_ordered_merge {A} u i L E (rest : M A) :
  emits L E rest -> ~ In 577 L -> ~ In 579 L ->
  merge_ordered u i (hook_run 577 Destination u ;;; hook_run 579 Destination i ;;; rest).
Proof.
  intros Hrest H7 H9 w r w' Hrun. unfold bind, hook_run in Hrun.
  destruct (db_call_cases 577 Destination (Run u) (fun w0 => (tt, w0)) w) as [[_ Hc] | [_ Hc]];
    rewrite Hc in Hrun; clear Hc.
  - cbn [fst snd] in Hrun.
    match type of Hrun with
    | context [db_call 579 _ _ ?eff ?w1] =>
        destruct (db_call_cases 579 Destination (Run i) eff w1) as [[_ Hc] | [_ Hc]];
          rewrite Hc in Hrun; clear Hc
    end.
    + cbn [fst snd] in Hrun.
      destruct (Hrest _ _ _ Hrun) as ((n & Ht & Ha) & _).
      exists ([mkEv 577 Destination (Run u) true; mkEv 579 Destination (Run i) true] ++ n).
      rewrite Ht. cbn [trace log]. rewrite <- !app_assoc. split; [reflexivity|].
      rewrite merge_calls_app, (merge_calls_quiet L n) by assumption.
      right. right. exists true. reflexivity.
    + injection Hrun as <- <-.
      exists [mkEv 577 Destination (Run u) true; mkEv 579 Destination (Run i) false].
      cbn [trace log]. rewrite <- !app_assoc. split; [reflexivity|].
      right. right. exists false. reflexivity.
  - injection Hrun as <- <-. exists [mkEv 577 Destination (Run u) false].
    split; [reflexivity|]. right. left. reflexivity.
Qed.

Lemma not_in_staging_lines : ~ In 577 staging_lines /\ ~ In 579 staging_lines.
Proof. split; cbn; intuition discriminate. Qed.

Lemma not_in_delete_lines : ~ In 577 delete_lines /\ ~ In 579 delete_lines.
Proof. split; cbn; intuition discriminate. Qed.

(** X16. In every run of [sync_db_2_db], whatever raises and wherever
    the run ends, the calls of the merge phase are none, or the UPDATE
    alone when it raised, or the UPDATE that returned followed by the
    INSERT: the INSERT is never sent before or without the UPDATE. *)
Lemma sync_db_2_db_merge_ordered fuel table date_column key_column source_schema
    destination_schema increment_schema sync_exclusions source_exc_schema source_exc_table
    source_exc_column chunksize w :
  let sqls := _build_incremental_sqls
                (destination_schema +++ "." +++ table)
                (if truthy increment_schema then fmt increment_schema +++ "." +++ table
                 else destination_schema +++ "." +++ table +++ "_alteracoes")
                key_column (dst_columns w) in
  exists new,
    trace (snd (sync_db_2_db fuel table date_column key_column source_schema
                  destination_schema increment_schema sync_exclusions source_exc_schema
                  source_exc_table source_exc_column chunksize w)) = trace w ++ new /\
    merge_shape (fst sqls) (snd sqls) (merge_calls new).
Proof.
  intros sqls.
  destruct (sync_db_2_db _ _ _ _ _ _ _ _ _ _ _ _ w) as [r w'] eqn:Hrun.
  cbn [fst snd].
  destruct not_in_staging_lines as [S7 S9]. destruct not_in_delete_lines as [D7 D9].
  unfold sync_db_2_db in Hrun. cbv zeta in Hrun.
  unfold bind at 1 in Hrun. cbv beta iota in Hrun. unfold bind at 1 in Hrun.
  destruct (get_table_cols_name destination_schema table w) as [[cols|msg|] w1] eqn:Hcols.
  2,3: (injection Hrun as <- <-;
        destruct (emits_get_table_cols_name _ _ _ _ _ Hcols) as ((n & Ht & Ha) & _);
        exists n; split; [assumption|]; left; eapply merge_calls_quiet; eassumption).
  destruct (emits_get_table_cols_name _ _ _ _ _ Hcols) as ((n1 & Ht1 & Ha1) & _).
  assert (Hc : cols = dst_columns w).
  { unfold get_table_cols_name in Hcols. destruct (dst_conn_type w); try discriminate;
      match type of Hcols with
      | context [db_call 143 _ ?c ?eff ?w0] =>
          destruct (db_call_cases 143 Destination c eff w0) as [[_ Hd] | [_ Hd]];
            rewrite Hd in Hcols; clear Hd
      end; try discriminate; injection Hcols as <- _; reflexivity. }
  subst cols.
  assert (Hrest : forall (rest : M unit), rest w1 = (r, w') -> merge_ordered (fst sqls) (snd sqls) rest ->
            exists new, trace w' = trace w ++ new /\
                        merge_shape (fst sqls) (snd sqls) (merge_calls new)).
  { intros rest Hr Hmo. destruct (Hmo _ _ _ Hr) as (n2 & Ht2 & Hshape).
    exists (n1 ++ n2). rewrite Ht2, Ht1, app_assoc. split; [reflexivity|].
    rewrite merge_calls_app, (merge_calls_quiet staging_lines n1) by assumption.
    exact Hshape. }
  apply (Hrest _ Hrun). clear Hrest Hrun Hcols.
  apply (merge_ordered_bind _ _ staging_lines sync_messages); auto.
  { destruct (dst_conn_type w); emits_step. }
  intros destination_provider.
  apply (merge_ordered_bind _ _ staging_lines sync_messages); auto.
  { apply emits_table_rows_count. }
  intros dest_rows_count.
  destruct (is_zero dest_rows_count).
  { eapply (merge_ordered_quiet _ _ staging_lines (empty_destination :: sync_messages)); auto.
    apply emits_raise. left. reflexivity. }
  apply (merge_ordered_bind _ _ staging_lines sync_messages); auto.
  { apply emits_build_filter_condition. }
  intros [ref_value where_condition].
  apply (merge_ordered_bind _ _ staging_lines sync_messages); auto.
  { apply emits_table_rows_count. }
  intros _.
  apply (merge_ordered_bind _ _ staging_lines sync_messages); auto.
  { eapply emits_weaken; [| |apply emits_copy_db_to_db];
      [unfold staging_lines; auto 20 using incl_refl, incl_appl, incl_appr | apply incl_refl]. }
  intros _.
  apply (merge_ordered_bind _ _ staging_lines sync_messages); auto.
  { destruct (dst_conn_type w); emits_step. }
  intros sql.
  apply (merge_ordered_bind _ _ staging_lines sync_messages); auto.
  { emits_step. }
  intros _.
  subst sqls.
  destruct (_build_incremental_sqls _ _ _ _) as [updates_sql inserts_sql].
  cbn [fst snd].
  apply (merge_ordered_merge _ _ delete_lines sync_messages); auto.
  repeat emits_step.
Qed.

(* ----------------------------------------------------------------- *)
(** ** Strings *)






Example ms_literal_example :
  drop_last3 (strftime_f a_datetime) = "2020-06-20 10:11:12.123".
Proof. reflexivity. Qed.

(* ----------------------------------------------------------------- *)
(** ** The merge on the tables *)





(** The scenario of the spec: 10 destination rows, 2 staging rows, one
    of an existing key and one new: 11 rows after the merge. *)
Example merge_scenario :
  let dest := map demo_row [1; 2; 3; 4; 5; 6; 7; 8; 9; 10]%Z in
  let staging := [mkRow 4 [VInt 4; VStr "changed"]; mkRow 11 [VInt 11; VStr "new"]] in
  let merged := apply_insert_missing (apply_update dest staging) staging in
  List.length merged = 11 /\
  map row_key merged = [1; 2; 3; 4; 5; 6; 7; 8; 9; 10; 11]%Z /\
  nth_error merged 3 = Some (mkRow 4 [VInt 4; VStr "changed"]).
Proof. vm_compute. repeat split; reflexivity. Qed.

(* ----------------------------------------------------------------- *)
(** ** sync_db_2_db without faults *)

Lemma hook_get_first_dst_ok l sql w :
  fault_free w ->
  hook_get_first l Destination sql w =
  (Val (hook_first w Destination sql), log (mkEv l Destination (GetFirst sql) true) w).
Proof. intros H. unfold hook_get_first. rewrite db_call_ok by assumption. reflexivity. Qed.


Lemma truthy_string c s : truthy (Some (String c s)) = true.
Proof. reflexivity. Qed.




(* ----------------------------------------------------------------- *)
(** ** sync_db_2_db: the merge *)



(** The statements of a run by evaluation. *)
Example sync_db_2_db_statements :
  statements_run
    (trace (snd (sync_db_2_db 4 "t" (Some "dataalteracao") "id" "src" "dbo" (Some "stg") false
                   None None None 2
                   (with_first (VDatetime a_datetime) (demo_world four_rows [] no_fault))))) =
  [(568, "ALTER INDEX ALL ON stg.t REBUILD");
   (577, fst (_build_incremental_sqls "dbo.t" "stg.t" "id" ["id"; "name"]));
   (579, snd (_build_incremental_sqls "dbo.t" "stg.t" "id" ["id"; "name"]))].
Proof. vm_compute. reflexivity. Qed.

(* ----------------------------------------------------------------- *)
(** ** sync_db_2_db: the filter *)




(** The staging SELECT of that run by evaluation. *)
Example sync_db_2_db_staging_select :
  In (mkEv 329 Source
        (Execute "SELECT id, name FROM src.t WHERE dataalteracao > '2020-06-20 10:11:12.123'" [])
        true)
     (trace (snd (sync_db_2_db 4 "t" (Some "dataalteracao") "id" "src" "dbo" (Some "stg") false
                    None None None 2
                    (with_first (VDatetime a_datetime) (demo_world four_rows [] no_fault))))).
Proof. vm_compute. tauto. Qed.

(** The older [_build_increm_filter], which [sync_db_2_db] does not
    call, is the one that looks for the date column among the columns. *)
Example build_increm_filter_looks_at_columns :
  fst (_build_increm_filter ["id"; "name"] "dbo.t" "id"
         (with_first (VInt 7) (demo_world four_rows [] no_fault))) = Val "id > '7'" /\
  fst (_build_increm_filter ["id"; "DataAlteracao"] "dbo.t" "id"
         (with_first (VDatetime a_datetime) (demo_world four_rows [] no_fault))) =
    Val "dataalteracao > '2020-06-20 10:11:12.123'".
Proof. vm_compute. split; reflexivity. Qed.

(** C9 by evaluation: an empty destination, and one that is not. *)
Example sync_db_2_db_on_empty_destination :
  let run := sync_db_2_db 4 "t" (Some "dataalteracao") "id" "src" "dbo" (Some "stg") true
               None None None 2
               (with_first (VInt 0) (demo_world four_rows [demo_row 9] no_fault)) in
  fst run = Exc empty_destination /\
  map ev_line (trace (snd run)) = [143; 362] /\
  dst_committed (snd run) = [demo_row 9].
Proof. vm_compute. repeat split; reflexivity. Qed.

(* ================================================================= *)
(** * Further properties *)

(* ----------------------------------------------------------------- *)
(** ** Relations kept by composed computations *)

Section Preserves.

Variable R : world -> world -> Prop.
Hypothesis R_refl : forall w, R w w.
Hypothesis R_trans : forall w1 w2 w3, R w1 w2 -> R w2 w3 -> R w1 w3.

Lemma preserves_ret {A} (a : A) : preserves R (ret a).
Proof. intros w r w' H. injection H as <- <-. apply R_refl. Qed.

Lemma preserves_raise {A} msg : preserves R (@raise A msg).
Proof. intros w r w' H. injection H as <- <-. apply R_refl. Qed.

Lemma preserves_out_of_fuel {A} : preserves R (@out_of_fuel A).
Proof. intros w r w' H. injection H as <- <-. apply R_refl. Qed.

Lemma preserves_bind {A B} (m : M A) (k : A -> M B) :
  preserves R m -> (forall a, preserves R (k a)) -> preserves R (bind m k).
Proof.
  intros Hm Hk w r w' H. unfold bind in H.
  destruct (m w) as [[a|msg|] w1] eqn:Hmw.
  - eapply R_trans; [eapply Hm; eassumption | eapply Hk; eassumption].
  - injection H as <- <-. eapply Hm; eassumption.
  - injection H as <- <-. eapply Hm; eassumption.
Qed.

Lemma preserves_try {A} (m : M A) : preserves R m -> preserves R (try m).
Proof.
  intros Hm w r w' H. unfold try in H.
  destruct (m w) as [[a|msg|] w1] eqn:Hmw; injection H as <- <-;
    eapply Hm; eassumption.
Qed.

Lemma preserves_db_call {A} l s c (effect : world -> A * world) :
  (forall e w, R w (log e w)) ->
  (forall w, R w (snd (effect w))) ->
  preserves R (db_call l s c effect).
Proof.
  intros Hlog Heff w r w' H.
  destruct (db_call_cases l s c effect w) as [[_ Hc] | [_ Hc]];
    rewrite Hc in H; injection H as <- <-.
  - eapply R_trans; [apply Hlog | apply Heff].
  - apply Hlog.
Qed.

Lemma preserves_with_connections {A} ls ld (body : M A) :
  (forall e w, R w (log e w)) ->
  (forall w, R w (snd (close_connections w))) ->
  preserves R body -> preserves R (with_connections ls ld body).
Proof.
  intros Hlog Hclose Hb. unfold with_connections.
  apply preserves_bind.
  { apply preserves_db_call; [exact Hlog | intros w; apply R_refl]. }
  intros _ w r w' H.
  match type of H with
  | context [db_call ld _ _ ?eff w] =>
      destruct (db_call_cases ld Destination Connect eff w) as [[_ Hd] | [_ Hd]];
        rewrite Hd in H
  end.
  - cbn [fst snd] in H. destruct (body _) as [rb wb] eqn:Hbody.
    injection H as <- <-.
    eapply R_trans; [apply Hlog|].
    eapply R_trans; [eapply Hb; eassumption | apply Hclose].
  - injection H as <- <-.
    apply R_trans with (log (mkEv ld Destination Connect false) w);
      [apply Hlog | apply (Hclose (log _ w))].
Qed.

End Preserves.

Lemma same_committed_refl w : same_committed w w.
Proof. reflexivity. Qed.

Lemma same_committed_trans w1 w2 w3 :
  same_committed w1 w2 -> same_committed w2 w3 -> same_committed w1 w3.
Proof. unfold same_committed. congruence. Qed.

Lemma same_source_refl w : same_source w w.
Proof. repeat split. Qed.

Lemma same_source_trans w1 w2 w3 :
  same_source w1 w2 -> same_source w2 w3 -> same_source w1 w3.
Proof. unfold same_source. intros (A1 & B1 & C1) (A2 & B2 & C2). repeat split; congruence. Qed.

(** One step of a proof that a computation built from calls that do
    not commit keeps the committed table. *)
Ltac keeps_committed_step :=
  first
    [ apply (preserves_ret _ same_committed_refl)
    | apply (preserves_raise _ same_committed_refl)
    | apply (preserves_out_of_fuel _ same_committed_refl)
    | apply (preserves_db_call _ same_committed_trans);
      [ intros ? ?; reflexivity
      | intros ?; cbn; try (destruct (prefix _ _)); reflexivity ]
    | apply (preserves_bind _ same_committed_trans); [|intros ?]
    | match goal with
      | |- preserves _ (if ?b then _ else _) => destruct b
      | |- preserves _ (match ?x with _ => _ end) => destruct x
      end ].

(** The same for the source. *)
Ltac same_source_step :=
  first
    [ apply (preserves_ret _ same_source_refl)
    | apply (preserves_raise _ same_source_refl)
    | apply (preserves_out_of_fuel _ same_source_refl)
    | apply (preserves_db_call _ same_source_trans);
      [ intros ? ?; repeat split
      | intros ?; cbn; try (destruct (prefix _ _)); repeat split ]
    | apply (preserves_bind _ same_source_trans); [|intros ?]
    | match goal with
      | |- preserves _ (if ?b then _ else _) => destruct b
      | |- preserves _ (match ?x with _ => _ end) => destruct x
      | |- preserves _ (let '(_, _) := ?x in _) => destruct x
      end ].

Lemma keeps_committed_get_cols_name destination_provider destination_table columns_to_ignore :
  preserves same_committed
    (get_cols_name destination_provider destination_table columns_to_ignore).
Proof.
  unfold get_cols_name, dst_execute.
  apply (preserves_bind _ same_committed_trans); [|intros ?; keeps_committed_step].
  destruct destination_provider.
  - apply (preserves_bind _ same_committed_trans); [keeps_committed_step|].
    intros _ w r w' H. injection H as <- <-. reflexivity.
  - apply (preserves_bind _ same_committed_trans); [keeps_committed_step|].
    intros _ w r w' H. injection H as <- <-. reflexivity.
  - keeps_committed_step.
Qed.

Lemma keeps_committed_copy_loop insert chunksize : forall fuel rows rows_inserted,
  preserves same_committed (copy_loop fuel insert chunksize rows rows_inserted).
Proof.
  induction fuel as [|fuel IH]; intros rows ri; destruct rows as [|row0 rows]; cbn [copy_loop].
  - keeps_committed_step.
  - keeps_committed_step.
  - keeps_committed_step.
  - unfold dst_executemany, src_fetchmany.
    apply (preserves_bind _ same_committed_trans); [keeps_committed_step|]. intros _.
    apply (preserves_bind _ same_committed_trans).
    { intros w r w' H. eapply (preserves_db_call _ same_committed_trans); [| |exact H].
      - intros ? ?; reflexivity.
      - intros ?; reflexivity. }
    intros rows'. apply IH.
Qed.

(* ----------------------------------------------------------------- *)
(** ** copy_db_to_db: what a failure leaves behind *)

Lemma bind_exc_cases {A B} (m : M A) (k : A -> M B) w msg w' :
  bind m k w = (Exc msg, w') ->
  m w = (Exc msg, w') \/ exists a w1, m w = (Val a, w1) /\ k a w1 = (Exc msg, w').
Proof.
  unfold bind. destruct (m w) as [[a|msg1|] w1]; intros H.
  - right. eauto.
  - left. injection H as <- <-. reflexivity.
  - discriminate.
Qed.

Lemma validate_db_string_world source_table destination_table select_sql w r w' :
  validate_db_string source_table destination_table select_sql w = (r, w') -> w' = w.
Proof.
  unfold validate_db_string, bind, assert, ret, raise.
  destruct (Nat.eqb (count_dots destination_table) 1); [|intros H; injection H as <- <-; reflexivity].
  destruct (negb (truthy select_sql)); [|intros H; injection H as <- <-; reflexivity].
  destruct source_table as [t|]; [|intros H; injection H as <- <-; reflexivity].
  destruct (Nat.eqb (count_dots t) 1); intros H; injection H as <- <-; reflexivity.
Qed.

Lemma keeps_committed_dst_execute l sql : preserves same_committed (dst_execute l sql).
Proof. unfold dst_execute. keeps_committed_step. Qed.

Lemma keeps_committed_src_execute l sql params :
  preserves same_committed (src_execute l sql params).
Proof. unfold src_execute. keeps_committed_step. Qed.

Lemma keeps_committed_src_fetchmany l size : preserves same_committed (src_fetchmany l size).
Proof.
  intros w r w' H. unfold src_fetchmany in H.
  eapply (preserves_db_call _ same_committed_trans); [| |exact H].
  - intros ? ?; reflexivity.
  - intros ?; reflexivity.
Qed.

Lemma dst_commit_exc l w msg w' :
  dst_commit l w = (Exc msg, w') -> dst_committed w' = dst_committed w.
Proof.
  unfold dst_commit. intros H.
  match type of H with
  | db_call _ _ _ ?eff _ = _ =>
      destruct (db_call_cases l Destination Commit eff w) as [[_ Hc] | [_ Hc]]
  end; rewrite Hc in H.
  - discriminate.
  - injection H as _ <-. reflexivity.
Qed.

(** The [TRUNCATE] step of [copy_db_to_db]: afterwards the committed
    table is as before, or empty, and empty only with an MSSQL
    destination that was asked to truncate. *)
Lemma copy_truncate_committed destination_truncate destination_provider
    destination_table cols wildcard_symbol w r w' :
  (if destination_truncate : bool then
     dst_execute 323 (snd (build_dest_sqls destination_table cols wildcard_symbol)) ;;;
     match destination_provider with
     | MSSQL => dst_commit 325
     | _ => ret tt
     end
   else ret tt) w = (r, w') ->
  dst_committed w' = dst_committed w \/
  (destination_provider = MSSQL /\ destination_truncate = true /\ dst_committed w' = []).
Proof.
  destruct destination_truncate.
  - unfold bind. intros H.
    destruct (dst_execute 323 _ w) as [[[]|m|] w1] eqn:He.
    + assert (Hc1 : dst_committed w1 = dst_committed w)
        by (eapply keeps_committed_dst_execute; exact He).
      assert (Hv1 : dst_visible w1 = []).
      { unfold dst_execute in He. rewrite truncate_prefix in He.
        match type of He with
        | db_call _ _ ?c ?eff _ = _ =>
            destruct (db_call_cases 323 Destination c eff w) as [[_ Hc] | [_ Hc]]
        end; rewrite Hc in He; [|discriminate].
        injection He as <-. reflexivity. }
      destruct destination_provider.
      * unfold dst_commit in H.
        match type of H with
        | db_call _ _ ?c ?eff _ = _ =>
            destruct (db_call_cases 325 Destination c eff w1) as [[_ Hc] | [_ Hc]]
        end; rewrite Hc in H; injection H as <- <-.
        -- right. repeat split. cbn. exact Hv1.
        -- left. exact Hc1.
      * injection H as <- <-. left. exact Hc1.
      * injection H as <- <-. left. exact Hc1.
    + injection H as <- <-. left. eapply keeps_committed_dst_execute; exact He.
    + injection H as <- <-. left. eapply keeps_committed_dst_execute; exact He.
  - intros H. injection H as <- <-. left. reflexivity.
Qed.

(** X1. All or nothing: when [copy_db_to_db] raises, whatever call
    failed and however many chunks had been inserted before, the
    committed destination table is the one from before the call; the
    only other possibility is an MSSQL destination with
    [destination_truncate], which can be left empty, because its
    [TRUNCATE] is committed on its own at line 325. *)
Theorem copy_db_to_db_failure_leaves_no_partial_copy
    fuel destination_table source_provider destination_provider
    source_table select_sql columns_to_ignore destination_truncate chunksize w msg w' :
  copy_db_to_db fuel destination_table source_provider destination_provider
    source_table select_sql columns_to_ignore destination_truncate chunksize w = (Exc msg, w') ->
  dst_committed w' = dst_committed w \/
  (destination_provider = MSSQL /\ destination_truncate = true /\ dst_committed w' = []).
Proof.
  unfold copy_db_to_db. intros H.
  apply bind_exc_cases in H as [H | (n & w1 & _ & H)]; [|discriminate].
  unfold copy_db_to_db_rows in H.
  apply bind_exc_cases in H as [H | ([] & w1 & Hv & H)].
  { left. apply validate_db_string_world in H. subst. reflexivity. }
  apply validate_db_string_world in Hv. subst w1.
  match type of H with
  | with_connections _ _ ?body _ = _ =>
      destruct (with_connections_cases 297 298 body w)
        as [(m1 & e & Hc & _) | [(m1 & w2 & Hc & _ & _ & Hcm & _) | Hc]];
        rewrite Hc in H; clear Hc
  end.
  - injection H as _ <-. left. reflexivity.
  - injection H as _ <-. left. exact Hcm.
  - match type of H with
    | (fst (?body ?x), _) = _ =>
        set (w0 := x) in *; destruct (body w0) as [rb wb] eqn:Hb
    end.
    cbn [fst snd] in H. injection H as -> <-.
    cbn [close_connections snd set_cursor set_visible dst_committed].
    assert (Hw0 : dst_committed w0 = dst_committed w) by reflexivity.
    rewrite <- Hw0. clearbody w0. clear Hw0 w.
    apply bind_exc_cases in Hb as [Hb | (cols & w1 & Hcols & Hb)].
    { left. eapply keeps_committed_get_cols_name; exact Hb. }
    apply keeps_committed_get_cols_name in Hcols. unfold same_committed in Hcols.
    rewrite <- Hcols. clear Hcols w0.
    rewrite (surjective_pairing (build_dest_sqls _ _ _)) in Hb.
    apply bind_exc_cases in Hb as [Hb | ([] & w2 & Htr & Hb)].
    { eapply copy_truncate_committed; exact Hb. }
    apply copy_truncate_committed in Htr.
    assert (Hrest : dst_committed wb = dst_committed w2).
    { apply bind_exc_cases in Hb as [Hb | ([] & w3 & H3 & Hb)].
      { eapply keeps_committed_src_execute; exact Hb. }
      apply keeps_committed_src_execute in H3. unfold same_committed in H3. rewrite <- H3.
      apply bind_exc_cases in Hb as [Hb | (rows & w4 & H4 & Hb)].
      { eapply keeps_committed_src_fetchmany; exact Hb. }
      apply keeps_committed_src_fetchmany in H4. unfold same_committed in H4. rewrite <- H4.
      apply bind_exc_cases in Hb as [Hb | (ri & w5 & H5 & Hb)].
      { eapply keeps_committed_copy_loop; exact Hb. }
      apply keeps_committed_copy_loop in H5. unfold same_committed in H5. rewrite <- H5.
      apply bind_exc_cases in Hb as [Hb | ([] & w6 & _ & Hb)]; [|discriminate].
      eapply dst_commit_exc; exact Hb. }
    rewrite Hrest. exact Htr.
Qed.

(** An MSSQL destination that held rows 8 and 9, asked to truncate,
    whose second [executemany] raises: the call raises and the
    destination is left empty. *)
Lemma copy_db_to_db_failure_leaves_no_partial_copy_witness :
  let w := demo_world four_rows (map demo_row [8; 9]%Z) (once_at 335 9) in
  let run := copy_db_to_db 10 "dbo.dest" MSSQL MSSQL (Some "dbo.src") None [] true 2 w in
  fst run = Exc "database error" /\
  dst_committed (snd run) = [] /\
  (dst_committed (snd run) = dst_committed w \/
   (MSSQL = MSSQL /\ true = true /\ dst_committed (snd run) = [])).
Proof.
  intros w run.
  split; [vm_compute; reflexivity|].
  split; [vm_compute; reflexivity|].
  apply (copy_db_to_db_failure_leaves_no_partial_copy
           10 "dbo.dest" MSSQL MSSQL (Some "dbo.src") None [] true 2 w
           "database error" (snd run)).
  vm_compute. reflexivity.
Defined.


(* ----------------------------------------------------------------- *)
(** ** copy_db_to_db: rejected arguments, and runs one after another *)

Lemma same_source_copy_loop insert chunksize : forall fuel rows rows_inserted,
  preserves same_source (copy_loop fuel insert chunksize rows rows_inserted).
Proof.
  induction fuel as [|fuel IH]; intros rows ri; destruct rows as [|row0 rows]; cbn [copy_loop].
  - same_source_step.
  - same_source_step.
  - same_source_step.
  - unfold dst_executemany.
    apply (preserves_bind _ same_source_trans); [same_source_step|]. intros _.
    apply (preserves_bind _ same_source_trans).
    { intros w r w' H. unfold src_fetchmany in H.
      eapply (preserves_db_call _ same_source_trans); [| |exact H].
      - intros ? ?; repeat split.
      - intros ?; repeat split. }
    intros rows'. apply IH.
Qed.

Lemma same_source_validate_db_string source_table destination_table select_sql :
  preserves same_source (validate_db_string source_table destination_table select_sql).
Proof.
  intros w r w' H. apply validate_db_string_world in H. subst. apply same_source_refl.
Qed.

Lemma same_source_get_cols_name destination_provider destination_table columns_to_ignore :
  preserves same_source
    (get_cols_name destination_provider destination_table columns_to_ignore).
Proof.
  unfold get_cols_name, dst_execute.
  apply (preserves_bind _ same_source_trans); [|intros ?; same_source_step].
  destruct destination_provider.
  - apply (preserves_bind _ same_source_trans); [same_source_step|].
    intros _ w r w' H. injection H as <- <-. apply same_source_refl.
  - apply (preserves_bind _ same_source_trans); [same_source_step|].
    intros _ w r w' H. injection H as <- <-. apply same_source_refl.
  - same_source_step.
Qed.

Lemma same_source_with_connections {A} ls ld (body : M A) :
  preserves same_source body -> preserves same_source (with_connections ls ld body).
Proof.
  apply (preserves_with_connections _ same_source_refl same_source_trans).
  - intros ? ?; repeat split.
  - intros ?; repeat split.
Qed.

(** [copy_db_to_db] never changes the source table. *)
Lemma same_source_copy_db_to_db fuel destination_table source_provider destination_provider
    source_table select_sql columns_to_ignore destination_truncate chunksize :
  preserves same_source
    (copy_db_to_db fuel destination_table source_provider destination_provider
       source_table select_sql columns_to_ignore destination_truncate chunksize).
Proof.
  unfold copy_db_to_db, copy_db_to_db_rows.
  apply (preserves_bind _ same_source_trans); [|intros ?; same_source_step].
  apply (preserves_bind _ same_source_trans); [apply same_source_validate_db_string|].
  intros _. apply same_source_with_connections.
  apply (preserves_bind _ same_source_trans); [apply same_source_get_cols_name|].
  intros cols. destruct (build_dest_sqls _ _ _) as [insert truncate].
  apply (preserves_bind _ same_source_trans).
  { destruct destination_truncate; [|same_source_step].
    unfold dst_execute, dst_commit. repeat same_source_step. }
  intros _. unfold src_execute.
  apply (preserves_bind _ same_source_trans); [same_source_step|]. intros _.
  apply (preserves_bind _ same_source_trans).
  { intros w r w' H. unfold src_fetchmany in H.
    eapply (preserves_db_call _ same_source_trans); [| |exact H].
    - intros ? ?; repeat split.
    - intros ?; repeat split. }
  intros rows.
  apply (preserves_bind _ same_source_trans); [apply same_source_copy_loop|]. intros ri.
  unfold dst_commit. repeat same_source_step.
Qed.

(** X2. Table names that are not of the form [schema.table] are
    rejected before anything is done: when the destination name does
    not have exactly one dot, or no [select_sql] is given and the
    source name is missing or does not have exactly one dot,
    [copy_db_to_db] raises and leaves the world untouched: no
    connection is opened and no call is made. *)
Theorem copy_db_to_db_rejects_table_names
    fuel destination_table source_provider destination_provider
    source_table select_sql columns_to_ignore destination_truncate chunksize w :
  count_dots destination_table <> 1 \/
  (truthy select_sql = false /\ forall t, source_table = Some t -> count_dots t <> 1) ->
  exists msg,
    copy_db_to_db fuel destination_table source_provider destination_provider
      source_table select_sql columns_to_ignore destination_truncate chunksize w =
    (Exc msg, w).
Proof.
  intros H. unfold copy_db_to_db, copy_db_to_db_rows, validate_db_string, bind, assert, ret, raise.
  destruct (Nat.eqb (count_dots destination_table) 1) eqn:Hd; [|eauto].
  apply Nat.eqb_eq in Hd.
  destruct H as [H | (Hs & Ht)]; [contradiction|].
  rewrite Hs. cbn [negb].
  destruct source_table as [t|]; [|eauto].
  destruct (Nat.eqb (count_dots t) 1) eqn:Hc; [|eauto].
  apply Nat.eqb_eq in Hc. exfalso. exact (Ht t eq_refl Hc).
Qed.

(** A destination name with two dots; the empty [select_sql] counts as
    not given, and the source name has no dot. *)
Lemma copy_db_to_db_rejects_table_names_witness :
  (exists msg,
     copy_db_to_db 10 "db.dbo.dest" MSSQL MSSQL (Some "dbo.src") None [] true 2
       (demo_world four_rows [] no_fault) =
     (Exc msg, demo_world four_rows [] no_fault)) /\
  (exists msg,
     copy_db_to_db 10 "dbo.dest" MSSQL MSSQL (Some "src") (Some EmptyString) [] true 2
       (demo_world four_rows [] no_fault) =
     (Exc msg, demo_world four_rows [] no_fault)).
Proof.
  split.
  - apply (copy_db_to_db_rejects_table_names 10 "db.dbo.dest" MSSQL MSSQL (Some "dbo.src")
             None [] true 2 (demo_world four_rows [] no_fault)).
    left. vm_compute. discriminate.
  - apply (copy_db_to_db_rejects_table_names 10 "dbo.dest" MSSQL MSSQL (Some "src")
             (Some EmptyString) [] true 2 (demo_world four_rows [] no_fault)).
    right. split; [reflexivity|]. intros t Ht. injection Ht as <-. vm_compute. discriminate.
Defined.

(** X3. [DbConnection] accepts the provider MYSQL, but as a
    destination it cannot be used: [get_cols_name] has no branch for
    it and its [colnames] is unbound.  Whatever the arguments and
    whatever raises, [copy_db_to_db] to a MYSQL destination ends with
    an exception, sends no [executemany] and no statement to the
    source, and leaves the committed destination as it was.  With
    well-formed names and no fault the exception is the
    [UnboundLocalError], raised after both connections were opened. *)
Theorem copy_db_to_db_mysql_destination_raises
    fuel destination_table source_provider
    source_table select_sql columns_to_ignore destination_truncate chunksize w :
  exists msg w' new,
    copy_db_to_db fuel destination_table source_provider MYSQL
      source_table select_sql columns_to_ignore destination_truncate chunksize w =
    (Exc msg, w') /\
    trace w' = trace w ++ new /\
    batches new = [] /\ src_statements new = [] /\
    dst_committed w' = dst_committed w /\
    (fault_free w ->
     count_dots destination_table = 1 ->
     (truthy select_sql = false -> exists t, source_table = Some t /\ count_dots t = 1) ->
     msg = "UnboundLocalError" /\
     new = [mkEv 297 Source Connect true; mkEv 298 Destination Connect true]).
Proof.
  unfold copy_db_to_db, copy_db_to_db_rows. unfold bind at 1 2.
  destruct (validate_db_string source_table destination_table select_sql w)
    as [[[]|m|] w1] eqn:Hv; pose proof (validate_db_string_world _ _ _ _ _ _ Hv) as ->.
  - unfold with_connections, bind.
    destruct (db_call_cases 297 Source Connect (fun w0 => (tt, w0)) w) as [[Hf1 ->] | [Hf1 ->]].
    + cbn [fst snd].
      match goal with
      | |- context [db_call 298 _ _ ?eff ?w1] =>
          destruct (db_call_cases 298 Destination Connect eff w1) as [[Hf2 ->] | [Hf2 ->]]
      end.
      * cbn [fst snd get_cols_name bind raise close_connections].
        eexists. eexists.
        exists [mkEv 297 Source Connect true; mkEv 298 Destination Connect true].
        split; [reflexivity|]. split; [cbn; rewrite <- app_assoc; reflexivity|].
        split; [reflexivity|]. split; [reflexivity|]. split; [reflexivity|].
        intros _ _ _. split; reflexivity.
      * eexists. eexists.
        exists [mkEv 297 Source Connect true; mkEv 298 Destination Connect false].
        split; [reflexivity|]. split; [cbn; rewrite <- app_assoc; reflexivity|].
        split; [reflexivity|]. split; [reflexivity|]. split; [reflexivity|].
        intros Hff _ _. cbn [fault log] in Hf2. rewrite Hff in Hf2. discriminate.
    + eexists. eexists. exists [mkEv 297 Source Connect false].
      split; [reflexivity|]. split; [reflexivity|].
      split; [reflexivity|]. split; [reflexivity|]. split; [reflexivity|].
      intros Hff _ _. rewrite Hff in Hf1. discriminate.
  - exists m, w, []. rewrite app_nil_r.
    split; [reflexivity|]. split; [reflexivity|].
    split; [reflexivity|]. split; [reflexivity|]. split; [reflexivity|].
    intros _ Hd Hs. rewrite validate_db_string_ok in Hv by assumption. discriminate.
  - exfalso. revert Hv. unfold validate_db_string, bind, assert, ret, raise.
    destruct (Nat.eqb _ 1); [|discriminate].
    destruct (negb _); [|discriminate].
    destruct source_table as [t|]; [|discriminate].
    destruct (Nat.eqb _ 1); discriminate.
Qed.

(** X4. Runs of [copy_db_to_db] one after another, without faults:
    the second run finds the source as the first one left it, which is
    as it was.  With [destination_truncate] the second run leaves in
    the destination exactly what the first one left, the source rows
    once; without it nothing is compared or replaced, and the
    destination ends with its old rows followed by the source rows
    twice. *)
Theorem copy_db_to_db_twice
    fuel destination_table source_provider destination_provider
    source_table select_sql columns_to_ignore destination_truncate chunksize w :
  0 < chunksize ->
  fault_free w ->
  count_dots destination_table = 1 ->
  (truthy select_sql = false -> exists t, source_table = Some t /\ count_dots t = 1) ->
  destination_provider <> MYSQL ->
  List.length (src_rows w) <= fuel ->
  let copy := copy_db_to_db fuel destination_table source_provider destination_provider
                source_table select_sql columns_to_ignore destination_truncate chunksize in
  exists w1 w2,
    copy w = (Val tt, w1) /\
    (copy ;;; copy) w = (Val tt, w2) /\
    src_rows w2 = src_rows w /\
    dst_committed w2 =
      if destination_truncate then dst_committed w1
      else dst_visible w ++ src_rows w ++ src_rows w.
Proof.
  intros Hc Hff Hd Hs Hp Hfuel copy.
  destruct (copy_db_to_db_rows_spec fuel destination_table source_provider
              destination_provider source_table select_sql columns_to_ignore
              destination_truncate chunksize w Hc Hff Hd Hs Hp Hfuel)
    as (w1 & new1 & Hr1 & _ & _ & _ & _ & _ & Hc1 & Hv1 & Hff1 & _).
  assert (Hrun1 : copy w = (Val tt, w1)).
  { subst copy. unfold copy_db_to_db, bind. rewrite Hr1. reflexivity. }
  destruct (same_source_copy_db_to_db _ _ _ _ _ _ _ _ _ _ _ _ Hrun1) as (Hsrc1 & _ & _).
  assert (Hfuel1 : List.length (src_rows w1) <= fuel) by (rewrite Hsrc1; exact Hfuel).
  destruct (copy_db_to_db_rows_spec fuel destination_table source_provider
              destination_provider source_table select_sql columns_to_ignore
              destination_truncate chunksize w1 Hc Hff1 Hd Hs Hp Hfuel1)
    as (w2 & new2 & Hr2 & _ & _ & _ & _ & _ & Hc2 & _).
  assert (Hrun2 : copy w1 = (Val tt, w2)).
  { subst copy. unfold copy_db_to_db, bind. rewrite Hr2. reflexivity. }
  destruct (same_source_copy_db_to_db _ _ _ _ _ _ _ _ _ _ _ _ Hrun2) as (Hsrc2 & _ & _).
  exists w1, w2. split; [exact Hrun1|].
  split; [unfold bind at 1; rewrite Hrun1; exact Hrun2|].
  split; [congruence|].
  rewrite Hc2, Hc1, Hv1, Hc1, Hsrc1.
  destruct destination_truncate; [reflexivity|]. rewrite <- app_assoc. reflexivity.
Qed.

(** Four source rows copied twice, with a truncate each time, into a
    destination that held the rows 8 and 9. *)
Lemma copy_db_to_db_twice_witness :
  let w := demo_world four_rows (map demo_row [8; 9]%Z) no_fault in
  let copy := copy_db_to_db 10 "dbo.dest" MSSQL PG (Some "dbo.src") None [] true 3 in
  exists w1 w2,
    copy w = (Val tt, w1) /\
    (copy ;;; copy) w = (Val tt, w2) /\
    src_rows w2 = src_rows w /\
    dst_committed w2 = dst_committed w1.
Proof.
  intros w copy.
  apply (copy_db_to_db_twice 10 "dbo.dest" MSSQL PG (Some "dbo.src") None [] true 3 w).
  - lia.
  - intros l t; reflexivity.
  - reflexivity.
  - intros _. exists "dbo.src". split; reflexivity.
  - discriminate.
  - vm_compute. lia.
Defined.

(* ----------------------------------------------------------------- *)
(** ** copy_by_key_interval: which rows are copied *)








(* ----------------------------------------------------------------- *)
(** ** copy_by_key_interval: an interval that is not positive *)





(* ----------------------------------------------------------------- *)
(** ** copy_by_key_with_retry: what the retries leave in the destination *)




(* ----------------------------------------------------------------- *)
(** ** copy_by_key_with_retry: how many calls, sleeps and truncates *)

Lemma calls_at_app l a b : calls_at l (a ++ b) = calls_at l a + calls_at l b.
Proof. unfold calls_at. rewrite filter_app, length_app. reflexivity. Qed.

Lemma calls_at_quiet l L new :
  Forall (fun e => In (ev_line e) L) new -> ~ In l L -> calls_at l new = 0.
Proof.
  intros Hall Hl. induction Hall as [|e new He _ IH]; [reflexivity|].
  unfold calls_at in *. cbn [filter].
  destruct (Nat.eqb (ev_line e) l) eqn:E; [|exact IH].
  apply Nat.eqb_eq in E. rewrite E in He. contradiction.
Qed.

Lemma at_most_weaken {A} l n n' (m : M A) : n <= n' -> at_most l n m -> at_most l n' m.
Proof.
  intros Hn H w r w' Hrun. destruct (H w r w' Hrun) as (new & Htr & Hc).
  exists new. split; [assumption | lia].
Qed.

Lemma at_most_emits {A} l L E (m : M A) : emits L E m -> ~ In l L -> at_most l 0 m.
Proof.
  intros H Hl w r w' Hrun. destruct (H w r w' Hrun) as ((new & Htr & Hall) & _).
  exists new. split; [assumption|]. rewrite (calls_at_quiet l L new Hall Hl). lia.
Qed.

Lemma at_most_bind {A B} l n1 n2 (m : M A) (k : A -> M B) :
  at_most l n1 m -> (forall a, at_most l n2 (k a)) -> at_most l (n1 + n2) (bind m k).
Proof.
  intros Hm Hk w r w' Hrun. unfold bind in Hrun.
  destruct (m w) as [[a|msg|] w1] eqn:Hmw;
    destruct (Hm w _ _ Hmw) as (new1 & Ht1 & Hc1).
  - destruct (Hk a w1 r w' Hrun) as (new2 & Ht2 & Hc2).
    exists (new1 ++ new2). rewrite Ht2, Ht1, app_assoc. split; [reflexivity|].
    rewrite calls_at_app. lia.
  - injection Hrun as <- <-. exists new1. split; [assumption | lia].
  - injection Hrun as <- <-. exists new1. split; [assumption | lia].
Qed.

Lemma at_most_db_call {A} l l' s c (effect : world -> A * world) :
  (forall w, trace (snd (effect w)) = trace w) ->
  at_most l 1 (db_call l' s c effect).
Proof.
  intros Heff w r w' Hrun.
  destruct (db_call_cases l' s c effect w) as [[_ Hc] | [_ Hc]];
    rewrite Hc in Hrun; injection Hrun as <- <-.
  - exists [mkEv l' s c true]. rewrite Heff. split; [reflexivity|].
    unfold calls_at. cbn. destruct (Nat.eqb l' l); cbn; lia.
  - exists [mkEv l' s c false]. split; [reflexivity|].
    unfold calls_at. cbn. destruct (Nat.eqb l' l); cbn; lia.
Qed.

(** Opening the connections adds one call at line [ls] and none at a
    line that is neither [ls] nor [ld]. *)
Lemma at_most_with_connections {A} l ls ld n (body : M A) :
  ld <> l ->
  at_most l n body ->
  at_most l ((if Nat.eqb ls l then 1 else 0) + n) (with_connections ls ld body).
Proof.
  intros Hld Hb. unfold with_connections.
  apply at_most_bind.
  { intros w r w' Hrun.
    destruct (db_call_cases ls Source Connect (fun w0 => (tt, w0)) w) as [[_ Hc] | [_ Hc]];
      rewrite Hc in Hrun; injection Hrun as <- <-;
      eexists [_]; (split; [reflexivity|]); unfold calls_at; cbn;
      destruct (Nat.eqb ls l); cbn; lia. }
  intros _ w r w' Hrun.
  apply Nat.eqb_neq in Hld.
  match type of Hrun with
  | context [db_call ld _ _ ?eff w] =>
      destruct (db_call_cases ld Destination Connect eff w) as [[_ Hd] | [_ Hd]];
        rewrite Hd in Hrun
  end.
  - cbn [fst snd] in Hrun. destruct (body _) as [rb wb] eqn:Hbody.
    destruct (Hb _ _ _ Hbody) as (nb & Htb & Hcb).
    injection Hrun as <- <-.
    exists ([mkEv ld Destination Connect true] ++ nb).
    cbn [trace close_connections set_cursor set_visible snd]. rewrite Htb. cbn [trace log].
    rewrite <- !app_assoc. split; [reflexivity|].
    rewrite calls_at_app. unfold calls_at at 1. cbn. rewrite Hld. cbn. exact Hcb.
  - injection Hrun as <- <-.
    exists [mkEv ld Destination Connect false]. split; [reflexivity|].
    unfold calls_at. cbn. rewrite Hld. cbn. lia.
Qed.

Lemma emits_out_of_fuel {A} L E : emits L E (@out_of_fuel A).
Proof.
  intros w r w' Hrun. injection Hrun as <- <-.
  split; [exists []; rewrite app_nil_r; auto | discriminate].
Qed.

Lemma emits_try {A} L E (m : M A) : emits L E m -> emits L E (try m).
Proof.
  intros Hm w r w' Hrun. unfold try in Hrun.
  destruct (m w) as [[a|msg|] w1] eqn:Hmw;
    destruct (Hm w _ _ Hmw) as (Hnew & _); injection Hrun as <- <-;
    (split; [exact Hnew | discriminate]).
Qed.

Lemma emits_sleep L E l seconds : In l L -> emits L E (sleep l seconds).
Proof.
  intros Hl w r w' Hrun. injection Hrun as <- <-.
  split; [|discriminate]. eexists [_]. split; [reflexivity|].
  repeat constructor. exact Hl.
Qed.

Lemma emits_get_now L E : emits L E get_now.
Proof.
  intros w r w' Hrun. injection Hrun as <- <-.
  split; [exists []; rewrite app_nil_r; auto | discriminate].
Qed.

Lemma emits_src_fetchall L E l :
  In l L -> In "database error" E -> emits L E (src_fetchall l).
Proof.
  intros Hl He w r w' Hrun. unfold src_fetchall in Hrun.
  eapply emits_db_call; [exact Hl | exact He | | exact Hrun]. reflexivity.
Qed.

Lemma emits_py_int L v : emits L key_messages (py_int v).
Proof. destruct v; cbn [py_int]; emits_step. Qed.

Lemma emits_key_loop insert select_sql key_interval max_id run_step :
  forall fuel key_begin key_end rows rows_inserted last_sleep,
    emits (key_body_lines false) key_messages
      (key_loop fuel insert select_sql key_interval max_id run_step
         key_begin key_end rows rows_inserted last_sleep).
Proof.
  induction fuel as [|fuel IH]; intros kb ke rows ri ls; cbn [key_loop];
    destruct ((kb <=? max_id) && (max_id >? 0))%Z; try apply emits_ret.
  - apply emits_out_of_fuel.
  - apply emits_bind; [apply emits_get_now|]. intros t.
    apply emits_bind.
    { destruct (_ >? run_step)%Z; [|apply emits_ret].
      apply emits_bind; [apply emits_sleep; cbn; tauto|]. intros _. apply emits_get_now. }
    intros ls'.
    apply emits_bind.
    { destruct rows as [|r0 rows]; [apply emits_ret|].
      apply emits_try. repeat emits_step. }
    intros [msg|[]]; [apply emits_ret|].
    apply emits_bind.
    { apply emits_try. apply emits_bind; [emits_step|]. intros _.
      apply emits_src_fetchall; cbn; tauto. }
    intros [msg|rows']; [apply emits_ret|]. apply IH.
Qed.

Lemma key_body_lines_incl destination_truncate :
  incl (key_body_lines false) (key_body_lines destination_truncate).
Proof.
  intros l Hl. destruct destination_truncate; [|exact Hl].
  cbn in *. tauto.
Qed.

Lemma copy_lines_key_lines destination_provider destination_table columns_to_ignore :
  emits (key_body_lines false) key_messages
    (get_cols_name destination_provider destination_table columns_to_ignore).
Proof.
  unfold get_cols_name. apply emits_bind; [|intros ?; apply emits_ret].
  destruct destination_provider.
  - apply emits_bind; [emits_step|]. intros _ w r w' Hrun. injection Hrun as <- <-.
    split; [exists []; rewrite app_nil_r; auto | discriminate].
  - apply emits_bind; [emits_step|]. intros _ w r w' Hrun. injection Hrun as <- <-.
    split; [exists []; rewrite app_nil_r; auto | discriminate].
  - emits_step.
Qed.

(** What [copy_by_key_interval] does after the [TRUNCATE] step. *)
Lemma emits_key_copy fuel insert select_sql key_column source_table key_start key_interval :
  emits (key_body_lines false) key_messages
    (fetched <- try (src_execute 729 select_sql [key_start; (key_start + key_interval - 1)%Z] ;;;
                     src_fetchall 730) ;;
     match fetched with
     | inl _ => ret (false, Some key_start)
     | inr rows =>
         last_sleep <- get_now ;;
         v <- hook_get_first 742 Source (max_id_sql key_column source_table) ;;
         max_id <- py_int v ;;
         r <- key_loop fuel insert select_sql key_interval max_id (60 * 30)%Z
                       key_start (key_start + key_interval - 1)%Z rows 0 last_sleep ;;
         match r with
         | inl early => ret early
         | inr _ => dst_commit 774 ;;; ret (true, None)
         end
     end).
Proof.
  apply emits_bind.
  { apply emits_try. apply emits_bind; [emits_step|]. intros _.
    apply emits_src_fetchall; cbn; tauto. }
  intros [msg|rows]; [apply emits_ret|].
  apply emits_bind; [apply emits_get_now|]. intros ls.
  apply emits_bind; [emits_step|]. intros v.
  apply emits_bind; [apply emits_py_int|]. intros max_id.
  apply emits_bind; [apply emits_key_loop|].
  intros [early|ri]; [apply emits_ret|]. repeat emits_step.
Qed.

Lemma emits_copy_by_key_interval fuel source_provider source_table destination_provider
    destination_table key_column key_start key_interval destination_truncate :
  emits (key_lines destination_truncate) key_messages
    (copy_by_key_interval fuel source_provider source_table destination_provider
       destination_table key_column key_start key_interval destination_truncate).
Proof.
  unfold copy_by_key_interval.
  apply emits_bind.
  { eapply emits_weaken; [apply incl_refl | | apply emits_validate_db_string].
    unfold key_messages. apply incl_appl, incl_refl. }
  intros _. apply emits_with_connections; [cbn; tauto | cbn; tauto | cbn; tauto |].
  eapply emits_weaken; [do 2 apply incl_tl; apply incl_refl | apply incl_refl |].
  unfold copy_by_key_interval_body.
  apply emits_bind.
  { eapply emits_weaken;
      [apply key_body_lines_incl | apply incl_refl | apply copy_lines_key_lines]. }
  intros cols. destruct (build_dest_sqls _ _ _) as [insert truncate].
  apply emits_bind.
  { destruct destination_truncate; [|apply emits_ret]. repeat emits_step. }
  intros _.
  eapply emits_weaken; [apply key_body_lines_incl | apply incl_refl | apply emits_key_copy].
Qed.

(** One call of [copy_by_key_interval] opens the source connection at
    most once. *)
Lemma copy_by_key_interval_one_invocation fuel source_provider source_table
    destination_provider destination_table key_column key_start key_interval
    destination_truncate :
  at_most 691 1
    (copy_by_key_interval fuel source_provider source_table destination_provider
       destination_table key_column key_start key_interval destination_truncate).
Proof.
  unfold copy_by_key_interval.
  apply (at_most_bind 691 0 1).
  { apply (at_most_emits 691 [] sync_messages); [apply emits_validate_db_string | cbn; tauto]. }
  intros _.
  apply (at_most_with_connections 691 691 692 0); [discriminate|].
  unfold copy_by_key_interval_body.
  apply (at_most_bind 691 0 0).
  { eapply at_most_emits; [apply copy_lines_key_lines|]. cbn. intuition discriminate. }
  intros cols. destruct (build_dest_sqls _ _ _) as [insert truncate].
  apply (at_most_bind 691 0 0).
  { apply (at_most_emits 691 [717; 718] ["database error"]); [|cbn; intuition discriminate].
    destruct destination_truncate; [|apply emits_ret]. repeat emits_step. }
  intros _. eapply at_most_emits; [apply emits_key_copy|]. cbn. intuition discriminate.
Qed.

(** It truncates at most once, and not at all when not asked to. *)
Lemma copy_by_key_interval_one_truncate fuel source_provider source_table
    destination_provider destination_table key_column key_start key_interval
    destination_truncate :
  at_most 717 (if destination_truncate : bool then 1 else 0)
    (copy_by_key_interval fuel source_provider source_table destination_provider
       destination_table key_column key_start key_interval destination_truncate).
Proof.
  destruct destination_truncate.
  2:{ eapply at_most_emits; [apply emits_copy_by_key_interval|].
      cbn. intuition discriminate. }
  unfold copy_by_key_interval.
  apply (at_most_bind 717 0 1).
  { apply (at_most_emits 717 [] sync_messages); [apply emits_validate_db_string | cbn; tauto]. }
  intros _.
  apply (at_most_with_connections 717 691 692 1); [discriminate|].
  unfold copy_by_key_interval_body.
  apply (at_most_bind 717 0 1).
  { eapply at_most_emits; [apply copy_lines_key_lines|]. cbn. intuition discriminate. }
  intros cols. destruct (build_dest_sqls _ _ _) as [insert truncate].
  apply (at_most_bind 717 1 0).
  { apply (at_most_bind 717 1 0).
    - unfold dst_execute. apply at_most_db_call.
      intros w. cbn. destruct (prefix _ _); reflexivity.
    - intros _. apply (at_most_emits 717 [718] ["database error"]);
        [emits_step | cbn; intuition discriminate]. }
  intros _. eapply at_most_emits; [apply emits_key_copy|]. cbn. intuition discriminate.
Qed.

Lemma emits_retry_loop fuel source_provider source_table destination_provider
    destination_table key_column key_interval retries retry_delay :
  forall n retry succeeded next_key,
    emits (853 :: key_lines false) key_messages
      (retry_loop n fuel source_provider source_table destination_provider destination_table
         key_column key_interval retries retry_delay retry succeeded next_key).
Proof.
  induction n as [|n IH]; intros retry succeeded next_key; cbn [retry_loop];
    destruct (negb succeeded && (retry <=? retries)%Z); try apply emits_ret.
  - apply emits_out_of_fuel.
  - apply emits_bind; [apply emits_sleep; cbn; tauto|]. intros _.
    apply emits_bind.
    { destruct next_key as [k|].
      - eapply emits_weaken; [| apply incl_refl | apply emits_copy_by_key_interval].
        apply incl_tl, incl_refl.
      - apply emits_raise. cbn. tauto. }
    intros [s k]. apply IH.
Qed.

(** The retry loop calls [copy_by_key_interval] and sleeps once per
    turn, and takes a turn for each value of [retry] up to [retries]. *)
Lemma retry_loop_turns fuel source_provider source_table destination_provider
    destination_table key_column key_interval retries retry_delay l :
  l = 691 \/ l = 853 ->
  forall n retry succeeded next_key,
    at_most l (Z.to_nat (retries + 1 - retry))
      (retry_loop n fuel source_provider source_table destination_provider destination_table
         key_column key_interval retries retry_delay retry succeeded next_key).
Proof.
  intros Hl.
  induction n as [|n IH]; intros retry succeeded next_key; cbn [retry_loop];
    destruct (negb succeeded && (retry <=? retries)%Z) eqn:Hcond;
    try (eapply at_most_weaken; [apply Nat.le_0_l|];
         apply (at_most_emits l [] []); [apply emits_ret | cbn; tauto]).
  - eapply at_most_weaken; [apply Nat.le_0_l|].
    apply (at_most_emits l [] []); [apply emits_out_of_fuel | cbn; tauto].
  - apply andb_true_iff in Hcond. destruct Hcond as [_ Hle]. apply Z.leb_le in Hle.
    replace (Z.to_nat (retries + 1 - retry))
      with (1 + Z.to_nat (retries + 1 - (retry + 1))) by lia.
    set (N := Z.to_nat (retries + 1 - (retry + 1))).
    specialize (IH (retry + 1)%Z). fold N in IH.
    destruct Hl as [-> | ->].
    + apply (at_most_bind 691 0 (1 + N)).
      { apply (at_most_emits 691 [853] []); [apply emits_sleep; cbn; tauto|].
        cbn. intuition discriminate. }
      intros _. apply (at_most_bind 691 1 N).
      { destruct next_key as [k|].
        - apply copy_by_key_interval_one_invocation.
        - eapply at_most_weaken; [apply Nat.le_0_l|].
          apply (at_most_emits 691 [] ["TypeError"]); [apply emits_raise | ]; cbn; tauto. }
      intros [s k]. apply IH.
    + apply (at_most_bind 853 1 (0 + N)).
      { intros w r w' Hrun. injection Hrun as <- <-.
        eexists [_]. split; [reflexivity|]. cbn. lia. }
      intros _. apply (at_most_bind 853 0 N).
      { destruct next_key as [k|].
        - eapply at_most_emits; [apply emits_copy_by_key_interval|].
          cbn. intuition discriminate.
        - apply (at_most_emits 853 [] ["TypeError"]); [apply emits_raise | ]; cbn; tauto. }
      intros [s k]. apply IH.
Qed.

(** X8. Whatever calls raise, [copy_by_key_with_retry] calls
    [copy_by_key_interval] at most [retries + 2] times (once, and then
    once for each value 0, 1, ..., [retries] of the counter), sleeps
    at most [retries + 1] times, and sends at most one [TRUNCATE]:
    none when [destination_truncate] is off, and never in a retry. *)
Theorem copy_by_key_with_retry_bounded
    n fuel source_provider source_table destination_provider destination_table
    key_column key_start key_interval destination_truncate retries retry_delay w :
  exists r w' new,
    copy_by_key_with_retry_status n fuel source_provider source_table destination_provider
      destination_table key_column key_start key_interval destination_truncate
      retries retry_delay w = (r, w') /\
    trace w' = trace w ++ new /\
    invocations new <= 1 + Z.to_nat (retries + 1) /\
    calls_at 853 new <= Z.to_nat (retries + 1) /\
    calls_at 717 new <= (if destination_truncate then 1 else 0).
Proof.
  destruct (copy_by_key_with_retry_status n fuel source_provider source_table
              destination_provider destination_table key_column key_start key_interval
              destination_truncate retries retry_delay w) as [r w'] eqn:Hrun.
  exists r, w'.
  assert (H1 : at_most 691 (1 + Z.to_nat (retries + 1 - 0))
                 (copy_by_key_with_retry_status n fuel source_provider source_table
                    destination_provider destination_table key_column key_start key_interval
                    destination_truncate retries retry_delay)).
  { unfold copy_by_key_with_retry_status.
    apply at_most_bind; [apply copy_by_key_interval_one_invocation|].
    intros [s k]. apply retry_loop_turns. left. reflexivity. }
  assert (H2 : at_most 853 (0 + Z.to_nat (retries + 1 - 0))
                 (copy_by_key_with_retry_status n fuel source_provider source_table
                    destination_provider destination_table key_column key_start key_interval
                    destination_truncate retries retry_delay)).
  { unfold copy_by_key_with_retry_status.
    apply at_most_bind.
    - eapply at_most_emits; [apply emits_copy_by_key_interval|].
      destruct destination_truncate; cbn; intuition discriminate.
    - intros [s k]. apply retry_loop_turns. right. reflexivity. }
  assert (H3 : at_most 717 ((if destination_truncate then 1 else 0) + 0)
                 (copy_by_key_with_retry_status n fuel source_provider source_table
                    destination_provider destination_table key_column key_start key_interval
                    destination_truncate retries retry_delay)).
  { unfold copy_by_key_with_retry_status.
    apply at_most_bind; [apply copy_by_key_interval_one_truncate|].
    intros [s k]. eapply at_most_emits; [apply emits_retry_loop|].
    cbn. intuition discriminate. }
  destruct (H1 _ _ _ Hrun) as (new & Htr & Hc1).
  destruct (H2 _ _ _ Hrun) as (new2 & Htr2 & Hc2).
  destruct (H3 _ _ _ Hrun) as (new3 & Htr3 & Hc3).
  rewrite Htr in Htr2, Htr3.
  apply app_inv_head in Htr2. apply app_inv_head in Htr3. subst new2 new3.
  exists new. split; [reflexivity|]. split; [exact Htr|].
  replace (retries + 1 - 0)%Z with (retries + 1)%Z in * by lia.
  split; [exact Hc1|]. split; [lia | lia].
Qed.

(* ----------------------------------------------------------------- *)
(** ** copy_by_limit_offset *)











(* ----------------------------------------------------------------- *)
(** ** copy_by_limit_offset: what a failure leaves behind *)

Lemma bind_cases {A B} (m : M A) (k : A -> M B) w r w' :
  bind m k w = (r, w') ->
  (exists a w1, m w = (Val a, w1) /\ k a w1 = (r, w')) \/
  ((forall b, r <> Val b) /\ exists ra, m w = (ra, w') /\ forall a, ra <> Val a).
Proof.
  unfold bind. destruct (m w) as [[a|msg|] w1] eqn:Hm; intros H.
  - left. eauto.
  - right. injection H as <- <-. split; [discriminate|].
    exists (Exc msg). split; [reflexivity | discriminate].
  - right. injection H as <- <-. split; [discriminate|].
    exists OutOfFuel. split; [reflexivity | discriminate].
Qed.

Lemma db_call_run {A} l s c (effect : world -> A * world) w r w' :
  db_call l s c effect w = (r, w') ->
  (r = Val (fst (effect (log (mkEv l s c true) w))) /\
   w' = snd (effect (log (mkEv l s c true) w)))
  \/
  (r = Exc "database error" /\ w' = log (mkEv l s c false) w).
Proof.
  intros H. destruct (db_call_cases l s c effect w) as [[_ Hc] | [_ Hc]];
    rewrite Hc in H; injection H as <- <-; auto.
Qed.

Lemma firstn_add {A} : forall a b (l : list A),
  firstn a l ++ firstn b (skipn a l) = firstn (a + b) l.
Proof.
  induction a as [|a IH]; intros b l; [reflexivity|].
  destruct l as [|x l]; cbn [firstn skipn Nat.add app].
  - rewrite firstn_nil. reflexivity.
  - f_equal. apply IH.
Qed.

Lemma same_tables_refl w : same_tables w w.
Proof. repeat split. Qed.

Lemma same_tables_trans w1 w2 w3 :
  same_tables w1 w2 -> same_tables w2 w3 -> same_tables w1 w3.
Proof. unfold same_tables. intros (A1 & B1 & C1) (A2 & B2 & C2). repeat split; congruence. Qed.

(** The column probe of [get_cols_name] changes no table. *)
Lemma same_tables_get_cols_name destination_provider destination_table columns_to_ignore :
  preserves same_tables
    (get_cols_name destination_provider destination_table columns_to_ignore).
Proof.
  assert (Hprobe : forall l,
             preserves same_tables
               (dst_execute l ("SELECT * FROM " +++ destination_table +++ " WHERE 1 = 2"))).
  { intros l. unfold dst_execute.
    apply (preserves_db_call _ same_tables_trans).
    - intros ? ?; repeat split.
    - intros ?; repeat split. }
  unfold get_cols_name.
  apply (preserves_bind _ same_tables_trans);
    [|intros ?; apply (preserves_ret _ same_tables_refl)].
  destruct destination_provider.
  - apply (preserves_bind _ same_tables_trans); [apply Hprobe|].
    intros _ w r w' H. injection H as <- <-. apply same_tables_refl.
  - apply (preserves_bind _ same_tables_trans); [apply Hprobe|].
    intros _ w r w' H. injection H as <- <-. apply same_tables_refl.
  - apply (preserves_raise _ same_tables_refl).
Qed.

(** The loop of [copy_by_limit_offset], whatever raises: the committed
    destination has grown by a whole number of pages. *)
Lemma limit_offset_loop_pages insert select_sql limit :
  forall fuel next_offset rows_inserted w r w',
    dst_visible w = dst_committed w ->
    limit_offset_loop fuel insert select_sql limit
      (firstn limit (skipn next_offset (src_rows w))) next_offset rows_inserted w = (r, w') ->
    src_rows w' = src_rows w /\
    (exists k, dst_committed w' =
               dst_committed w ++ firstn (k * limit) (skipn next_offset (src_rows w))) /\
    (forall n, r = Val n -> dst_visible w' = dst_committed w').
Proof.
  induction fuel as [|fuel IH]; intros off ri w r w' Hvis H;
    destruct (firstn limit (skipn off (src_rows w))) as [|r0 page'] eqn:Hpage;
    cbn [limit_offset_loop] in H.
  - injection H as <- <-. split; [reflexivity|]. split; [|auto].
    exists 0. cbn. rewrite app_nil_r. reflexivity.
  - injection H as <- <-. split; [reflexivity|]. split; [|discriminate].
    exists 0. cbn. rewrite app_nil_r. reflexivity.
  - injection H as <- <-. split; [reflexivity|]. split; [|auto].
    exists 0. cbn. rewrite app_nil_r. reflexivity.
  - set (page := r0 :: page') in *.
    apply bind_cases in H as [([] & w1 & H1 & H) | (Hnv & ra & H1 & Hra)].
    2:{ unfold dst_executemany in H1.
        apply db_call_run in H1 as [(-> & _) | (_ & ->)]; [exfalso; eapply Hra; reflexivity|].
        split; [reflexivity|]. split; [|intros n Hn; exfalso; eapply Hnv; exact Hn].
        exists 0. cbn. rewrite app_nil_r. reflexivity. }
    unfold dst_executemany in H1.
    apply db_call_run in H1 as [(_ & ->) | (Hx & _)]; [|discriminate]. cbn [fst snd] in H.
    apply bind_cases in H as [([] & w2 & H2 & H) | (Hnv & ra & H2 & Hra)].
    2:{ unfold dst_commit in H2.
        apply db_call_run in H2 as [(-> & _) | (_ & ->)]; [exfalso; eapply Hra; reflexivity|].
        split; [reflexivity|]. split; [|intros n Hn; exfalso; eapply Hnv; exact Hn].
        exists 0. cbn. rewrite app_nil_r. reflexivity. }
    unfold dst_commit in H2.
    apply db_call_run in H2 as [(_ & ->) | (Hx & _)]; [|discriminate]. cbn [fst snd] in H.
    assert (Hone : dst_committed w ++ page =
                   dst_committed w ++ firstn (1 * limit) (skipn off (src_rows w))).
    { rewrite Nat.mul_1_l, Hpage. reflexivity. }
    apply bind_cases in H as [([] & w3 & H3 & H) | (Hnv & ra & H3 & Hra)].
    2:{ unfold src_execute_page in H3.
        apply db_call_run in H3 as [(-> & _) | (_ & ->)]; [exfalso; eapply Hra; reflexivity|].
        split; [reflexivity|]. split; [|intros n Hn; exfalso; eapply Hnv; exact Hn].
        exists 1. rewrite <- Hone.
        cbn [dst_committed dst_visible set_committed set_visible log]. rewrite Hvis. reflexivity. }
    unfold src_execute_page in H3.
    apply db_call_run in H3 as [(_ & ->) | (Hx & _)]; [|discriminate]. cbn [fst snd] in H.
    apply bind_cases in H as [(rows & w4 & H4 & H) | (Hnv & ra & H4 & Hra)].
    2:{ unfold src_fetchall in H4.
        apply db_call_run in H4 as [(-> & _) | (_ & ->)]; [exfalso; eapply Hra; reflexivity|].
        split; [reflexivity|]. split; [|intros n Hn; exfalso; eapply Hnv; exact Hn].
        exists 1. rewrite <- Hone.
        cbn [dst_committed dst_visible set_committed set_visible set_cursor log].
        rewrite Hvis. reflexivity. }
    unfold src_fetchall in H4.
    apply db_call_run in H4 as [(Hr & ->) | (Hx & _)]; [|discriminate].
    injection Hr as ->.
    cbn [fst snd src_cursor src_rows set_cursor set_committed set_visible log] in H.
    match type of H with
    | limit_offset_loop _ _ _ _ _ _ _ ?wl = _ =>
        destruct (IH (off + limit) (ri + List.length page) wl r w') as (Hsrc & (k & Hk) & Hval);
          [reflexivity | exact H |]
    end.
    cbn [src_rows dst_committed dst_visible set_cursor set_committed set_visible log]
      in Hsrc, Hk.
    split; [exact Hsrc|]. split; [|exact Hval].
    exists (S k). subst page. rewrite Hk, Hvis, <- app_assoc. f_equal.
    replace (skipn (off + limit) (src_rows w))
      with (skipn limit (skipn off (src_rows w))) by (rewrite skipn_skipn; f_equal; lia).
    rewrite <- Hpage. cbn [Nat.mul]. apply firstn_add.
Qed.

(** The [TRUNCATE] step of [copy_by_limit_offset], whatever raises. *)
Lemma limit_truncate_cases destination_truncate destination_table cols w r w' :
  dst_visible w = dst_committed w ->
  (if destination_truncate : bool then
     dst_execute 937 (snd (build_dest_sqls destination_table cols "?")) ;;; dst_commit 938
   else ret tt) w = (r, w') ->
  src_rows w' = src_rows w /\
  ((r = Val tt /\
    dst_committed w' = (if destination_truncate then [] else dst_committed w) /\
    dst_visible w' = dst_committed w')
   \/
   ((forall a, r <> Val a) /\ dst_committed w' = dst_committed w)).
Proof.
  intros Hvis H. destruct destination_truncate.
  - apply bind_cases in H as [([] & w1 & H1 & H) | (Hnv & ra & H1 & Hra)].
    2:{ unfold dst_execute in H1.
        apply db_call_run in H1 as [(-> & _) | (_ & ->)]; [exfalso; eapply Hra; reflexivity|].
        split; [reflexivity|]. right. split; [exact Hnv | reflexivity]. }
    unfold dst_execute in H1. rewrite truncate_prefix in H1.
    apply db_call_run in H1 as [(_ & ->) | (Hx & _)]; [|discriminate]. cbn [fst snd] in H.
    unfold dst_commit in H.
    apply db_call_run in H as [(-> & ->) | (-> & ->)].
    + split; [reflexivity|]. left. repeat split.
    + split; [reflexivity|]. right. split; [discriminate | reflexivity].
  - injection H as <- <-. split; [reflexivity|]. left. repeat split. exact Hvis.
Qed.

(** X11. Page by page: however a run of [copy_by_limit_offset] ends,
    and whatever call raised, the committed destination is either as it
    was before the call or holds what it had (nothing after a
    truncate) followed by a whole number of pages of the source, in
    order.  Each page is committed on its own, so a failure in the
    middle leaves the pages written so far in place. *)
Theorem copy_by_limit_offset_whole_pages
    fuel source_provider source_table destination_provider destination_table
    limit destination_truncate w :
  dst_visible w = dst_committed w ->
  exists r w',
    copy_by_limit_offset fuel source_provider source_table destination_provider
      destination_table limit destination_truncate w = (r, w') /\
    (dst_committed w' = dst_committed w \/
     exists k, dst_committed w' =
               (if destination_truncate then [] else dst_committed w) ++
               firstn (k * limit) (src_rows w)).
Proof.
  intros Hvis.
  destruct (copy_by_limit_offset fuel source_provider source_table destination_provider
              destination_table limit destination_truncate w) as [r w'] eqn:H.
  exists r, w'. split; [reflexivity|].
  unfold copy_by_limit_offset in H.
  apply bind_cases in H as [([] & w1 & Hv & H) | (_ & ra & Hv & _)].
  2:{ apply validate_db_string_world in Hv. subst. left. reflexivity. }
  apply validate_db_string_world in Hv. subst w1.
  match type of H with
  | with_connections _ _ ?body _ = _ =>
      destruct (with_connections_cases 915 916 body w)
        as [(m1 & e & Hc & _) | [(m1 & w2 & Hc & _ & _ & Hcm & _) | Hc]];
        rewrite Hc in H; clear Hc
  end.
  - injection H as _ <-. left. reflexivity.
  - injection H as _ <-. left. exact Hcm.
  - match type of H with
    | (fst (?body ?x), _) = _ =>
        set (w0 := x) in *; destruct (body w0) as [rb wb] eqn:Hb
    end.
    cbn [fst snd] in H. injection H as -> <-.
    cbn [close_connections snd set_cursor set_visible dst_committed].
    assert (Hc0 : dst_committed w0 = dst_committed w) by reflexivity.
    assert (Hs0 : src_rows w0 = src_rows w) by reflexivity.
    assert (Hv0 : dst_visible w0 = dst_committed w0) by exact Hvis.
    rewrite <- Hc0, <- Hs0. clearbody w0. clear Hc0 Hs0 Hvis w.
    apply bind_cases in Hb as [(cols & w1 & Hcols & Hb) | (_ & ra & Hcols & _)].
    2:{ left. eapply same_tables_get_cols_name; exact Hcols. }
    apply same_tables_get_cols_name in Hcols. destruct Hcols as (Hs1 & Hc1 & Hv1).
    rewrite <- Hs1, <- Hc1.
    assert (Hvis1 : dst_visible w1 = dst_committed w1) by congruence.
    clear Hs1 Hc1 Hv1 Hv0 w0.
    rewrite (surjective_pairing (build_dest_sqls _ _ _)) in Hb.
    apply bind_cases in Hb as [([] & w2 & Htr & Hb) | (_ & ra & Htr & Hra)].
    2:{ destruct (limit_truncate_cases _ _ _ _ _ _ Hvis1 Htr)
          as (_ & [(-> & _) | (_ & Hc)]); [exfalso; eapply Hra; reflexivity|].
        left. exact Hc. }
    destruct (limit_truncate_cases _ _ _ _ _ _ Hvis1 Htr)
      as (Hs2 & [(_ & Hc2 & Hv2) | (Hnv & _)]); [|exfalso; eapply Hnv; reflexivity].
    right. rewrite <- Hs2, <- Hc2. clear Htr Hs2 Hc2 Hvis1 w1.
    apply bind_cases in Hb as [([] & w3 & H3 & Hb) | (_ & ra & H3 & Hra)].
    2:{ unfold src_execute_page in H3.
        apply db_call_run in H3 as [(-> & _) | (_ & ->)]; [exfalso; eapply Hra; reflexivity|].
        exists 0. cbn. rewrite app_nil_r. reflexivity. }
    unfold src_execute_page in H3.
    apply db_call_run in H3 as [(_ & ->) | (Hx & _)]; [|discriminate]. cbn [fst snd] in Hb.
    apply bind_cases in Hb as [(rows & w4 & H4 & Hb) | (_ & ra & H4 & Hra)].
    2:{ unfold src_fetchall in H4.
        apply db_call_run in H4 as [(-> & _) | (_ & ->)]; [exfalso; eapply Hra; reflexivity|].
        exists 0. cbn. rewrite app_nil_r. reflexivity. }
    unfold src_fetchall in H4.
    apply db_call_run in H4 as [(Hr & ->) | (Hx & _)]; [|discriminate].
    injection Hr as ->.
    cbn [fst snd src_cursor src_rows set_cursor log skipn] in Hb.
    apply bind_cases in Hb as [(ri & w5 & H5 & Hb) | (_ & ra & H5 & _)].
    2:{ match type of H5 with
        | limit_offset_loop _ ?i ?s ?l _ _ _ ?wl = _ =>
            destruct (limit_offset_loop_pages i s l fuel 0 0 wl ra wb) as (_ & (k & Hk) & _);
              [exact Hv2 | exact H5 |]
        end.
        exists k. exact Hk. }
    match type of H5 with
    | limit_offset_loop _ ?i ?s ?l _ _ _ ?wl = _ =>
        destruct (limit_offset_loop_pages i s l fuel 0 0 wl (Val ri) w5)
          as (_ & (k & Hk) & Hv5); [exact Hv2 | exact H5 |]
    end.
    cbn [src_rows dst_committed set_cursor log skipn] in Hk.
    specialize (Hv5 ri eq_refl).
    exists k. rewrite <- Hk.
    apply bind_cases in Hb as [([] & w6 & H6 & Hb) | (_ & ra & H6 & Hra)].
    + unfold dst_commit in H6.
      apply db_call_run in H6 as [(_ & ->) | (Hx & _)]; [|discriminate].
      injection Hb as _ <-. cbn. exact Hv5.
    + unfold dst_commit in H6.
      apply db_call_run in H6 as [(-> & _) | (_ & ->)]; [exfalso; eapply Hra; reflexivity|].
      reflexivity.
Qed.

(** Four source rows in pages of 1 into a truncated destination that
    held the rows 8 and 9; the third insert raises, and the first two
    rows stay. *)
Lemma copy_by_limit_offset_whole_pages_witness :
  let w := demo_world four_rows (map demo_row [8; 9]%Z)
             (fun l t => Nat.eqb l 949 && Nat.leb 15 t) in
  let run := copy_by_limit_offset 10 MYSQL "s.src" MSSQL "dbo.dest" 1 true w in
  fst run = Exc "database error" /\
  dst_committed (snd run) = map demo_row [1; 2]%Z /\
  exists r w',
    run = (r, w') /\
    (dst_committed w' = dst_committed w \/
     exists k, dst_committed w' = [] ++ firstn (k * 1) (src_rows w)).
Proof.
  intros w run.
  split; [vm_compute; reflexivity|].
  split; [vm_compute; reflexivity|].
  apply (copy_by_limit_offset_whole_pages 10 MYSQL "s.src" MSSQL "dbo.dest" 1 true w).
  reflexivity.
Defined.

(* ----------------------------------------------------------------- *)
(** ** search_key_gaps *)

Lemma src_execute_count_ok l sql key_begin key_end w :
  fault_free w ->
  src_execute_count l sql key_begin key_end w =
  (Val tt, set_cursor
             [count_row (count_distinct (filter (between key_begin key_end) (src_rows w)))]
             (log (mkEv l Source (Execute sql [key_begin; key_end]) true) w)).
Proof. intros H. unfold src_execute_count. rewrite db_call_ok by assumption. reflexivity. Qed.

Lemma src_fetchone_ok l w :
  fault_free w ->
  src_fetchone l w =
  (Val (hd_error (src_cursor w)),
   set_cursor (skipn 1 (src_cursor w))
     (log (mkEv l Source (Fetchmany 1 (firstn 1 (src_cursor w))) true) w)).
Proof. intros H. unfold src_fetchone. rewrite db_call_ok by assumption. reflexivity. Qed.

Lemma dst_count_ok l sql key_begin key_end w :
  fault_free w ->
  dst_count l sql key_begin key_end w =
  (Val (count_distinct (filter (between key_begin key_end) (dst_visible w))),
   log (mkEv l Destination (Execute sql [key_begin; key_end]) true) w).
Proof. intros H. unfold dst_count. rewrite db_call_ok by assumption. reflexivity. Qed.

Lemma dst_last_key_ok l sql w :
  fault_free w ->
  dst_last_key l sql w =
  (Val (max_key_opt (dst_visible w)), log (mkEv l Destination (Execute sql []) true) w).
Proof. intros H. unfold dst_last_key. rewrite db_call_ok by assumption. reflexivity. Qed.

Lemma scans_continue size kb lk :
  (0 < size)%Z -> (kb + size <= lk)%Z ->
  scans size kb lk = S (scans size (kb + size) lk).
Proof.
  intros Hs Hle. unfold scans. f_equal.
  replace (lk - kb)%Z with ((lk - (kb + size)) + 1 * size)%Z by lia.
  rewrite Z.div_add by lia.
  assert (0 <= (lk - (kb + size)) / size)%Z by (apply Z.div_pos; lia).
  lia.
Qed.

Lemma scans_stop size kb lk :
  (0 < size)%Z -> (lk < kb + size)%Z -> scans size kb lk = 1.
Proof.
  intros Hs Hlt. unfold scans. f_equal.
  destruct (Z_lt_le_dec (lk - kb) 0) as [Hneg | Hpos].
  - assert ((lk - kb) / size < 0)%Z by (apply Z.div_lt_upper_bound; lia). lia.
  - rewrite Z.div_small by lia. reflexivity.
Qed.

(** The comparison loop without faults, from the interval that begins
    at [kb] on. *)
Lemma gaps_loop_spec select_sql compare_sql size lk :
  (0 < size)%Z ->
  forall fuel kb gaps totdif w,
    fault_free w ->
    scans size kb lk <= fuel ->
    exists w' new,
      gaps_loop fuel select_sql compare_sql size (Some lk)
        (Some (count_row (count_distinct
                 (filter (between kb (kb + size - 1)) (src_rows w)))))
        kb (kb + size - 1)%Z gaps totdif w =
      (Val (gaps + fst (gap_report (src_rows w) (dst_visible w)
                          (intervals size kb (scans size kb lk))),
            (totdif + snd (gap_report (src_rows w) (dst_visible w)
                             (intervals size kb (scans size kb lk))))%Z), w') /\
      trace w' = trace w ++ new /\
      selects new = intervals size (kb + size) (scans size kb lk - 1) /\
      batches new = [] /\
      dst_visible w' = dst_visible w /\ dst_committed w' = dst_committed w.
Proof.
  intros Hs. induction fuel as [|fuel IH]; intros kb gaps totdif w Hff Hfuel.
  { unfold scans in Hfuel. lia. }
  cbn [gaps_loop].
  unfold bind at 1. rewrite dst_count_ok by assumption.
  unfold bind at 1. cbn [first_cell count_row row_cells ret].
  set (cs := count_distinct (filter (between kb (kb + size - 1)) (src_rows w))).
  set (cd := count_distinct (filter (between kb (kb + size - 1)) (dst_visible w))).
  cbn [dst_visible log].
  destruct (kb + size - 1 + 1 >? lk)%Z eqn:Hstop.
  - apply Z.gtb_lt in Hstop.
    rewrite (scans_stop size kb lk Hs) by lia.
    cbn [intervals gap_report]. fold cs cd.
    exists (log (mkEv 1043 Destination (Execute compare_sql [kb; (kb + size - 1)%Z]) true) w).
    exists [mkEv 1043 Destination (Execute compare_sql [kb; (kb + size - 1)%Z]) true].
    destruct (cs =? cd)%Z; cbn [negb fst snd]; unfold ret;
      (split; [apply f_equal2; [apply f_equal; apply f_equal2; lia | reflexivity]|]);
      repeat split.
  - assert (Hle : (kb + size <= lk)%Z).
    { destruct (Z.gtb_spec (kb + size - 1 + 1) lk); [discriminate | lia]. }
    rewrite (scans_continue size kb lk Hs Hle) in *.
    cbn [intervals gap_report]. fold cs cd.
    set (w1 := log (mkEv 1043 Destination (Execute compare_sql [kb; (kb + size - 1)%Z]) true) w).
    assert (Hff1 : fault_free w1) by (subst w1; auto with ff).
    assert (Hrest : forall g t,
      exists w' new,
        (src_execute_count 1062 select_sql (kb + size - 1 + 1)
            (kb + size - 1 + 1 + size - 1);;;
         rows <- src_fetchone 1063;;
         gaps_loop fuel select_sql compare_sql size (Some lk) rows
           (kb + size - 1 + 1) (kb + size - 1 + 1 + size - 1) g t) w1 =
        (Val (g + fst (gap_report (src_rows w) (dst_visible w)
                         (intervals size (kb + size) (scans size (kb + size) lk))),
              (t + snd (gap_report (src_rows w) (dst_visible w)
                          (intervals size (kb + size) (scans size (kb + size) lk))))%Z), w') /\
        trace w' = trace w ++ new /\
        selects new = intervals size (kb + size) (S (scans size (kb + size) lk) - 1) /\
        batches new = [] /\
        dst_visible w' = dst_visible w /\ dst_committed w' = dst_committed w).
    { intros g t.
      replace (kb + size - 1 + 1)%Z with (kb + size)%Z by lia.
      unfold bind at 1. rewrite src_execute_count_ok by assumption.
      unfold bind at 1. rewrite src_fetchone_ok by auto with ff.
      subst w1.
      cbn [src_cursor src_rows dst_visible dst_committed trace set_cursor log hd_error skipn].
      match goal with
      | |- context [gaps_loop _ _ _ _ _ _ _ _ _ _ ?wl] =>
          destruct (IH (kb + size)%Z g t wl)
            as (w' & new & Hrun & Htr & Hsel & Hbat & Hv & Hc);
            [auto with ff | lia |]
      end.
      cbn [src_cursor src_rows dst_visible dst_committed trace set_cursor log hd_error skipn]
        in Hrun, Htr, Hv, Hc.
      rewrite Hrun.
      exists w'.
      exists ([mkEv 1043 Destination (Execute compare_sql [kb; (kb + size - 1)%Z]) true;
               mkEv 1062 Source
                 (Execute select_sql [(kb + size)%Z; (kb + size + size - 1)%Z]) true;
               mkEv 1063 Source
                 (Fetchmany 1
                    [count_row (count_distinct
                       (filter (between (kb + size) (kb + size + size - 1)) (src_rows w)))])
                 true] ++ new).
      split; [reflexivity|].
      split; [rewrite Htr; cbn [trace log]; rewrite <- !app_assoc; reflexivity|].
      split.
      { rewrite selects_app, Hsel. cbn [selects flat_map ev_side ev_call app].
        unfold scans. cbn [Nat.sub intervals]. rewrite Nat.sub_0_r.
        f_equal. }
      split; [rewrite batches_app, Hbat; reflexivity|].
      split; assumption. }
    destruct (gap_report (src_rows w) (dst_visible w)
                (intervals size (kb + size) (scans size (kb + size) lk))) as [G T] eqn:HG.
    cbn [fst snd] in Hrest.
    destruct (cs =? cd)%Z; cbn [negb fst snd].
    + destruct (Hrest gaps totdif) as (w' & new & Hrun & Hrem). exists w', new.
      split; [rewrite Hrun; reflexivity | exact Hrem].
    + destruct (Hrest (S gaps) (totdif + (cs - cd))%Z) as (w' & new & Hrun & Hrem).
      exists w', new.
      split; [rewrite Hrun; apply f_equal2;
              [apply f_equal; apply f_equal2; lia | reflexivity] | exact Hrem].
Qed.

(** Everything a run of [search_key_gaps] without faults does on a
    destination that is not empty. *)
Lemma search_key_gaps_spec fuel source_provider source_table destination_provider
    destination_table key_column key_start key_interval w :
  fault_free w ->
  (0 < key_interval)%Z ->
  count_dots source_table = 1 ->
  count_dots destination_table = 1 ->
  dst_visible w <> [] ->
  scans key_interval key_start (max_key (dst_visible w)) <= fuel ->
  exists w' new,
    search_key_gaps fuel source_provider source_table destination_provider
      destination_table key_column key_start key_interval w =
      (Val (gap_report (src_rows w) (dst_visible w)
              (intervals key_interval key_start
                 (scans key_interval key_start (max_key (dst_visible w))))), w') /\
    trace w' = trace w ++ new /\
    selects new = intervals key_interval key_start
                    (scans key_interval key_start (max_key (dst_visible w))) /\
    batches new = [] /\
    dst_committed w' = dst_committed w.
Proof.
  intros Hff Hs Hst Hdt Hne Hfuel.
  unfold search_key_gaps. unfold bind at 1.
  rewrite validate_db_string_ok; [|assumption|intros _; eauto].
  set (w0 := log (mkEv 1007 Destination Connect true) (log (mkEv 1006 Source Connect true) w)).
  assert (Hff0 : fault_free w0) by (subst w0; auto with ff).
  match goal with
  | |- context [with_connections _ _ ?body w] =>
      destruct (body w0) as [r w2] eqn:Hbody;
      rewrite (with_connections_run _ _ body w r w2 Hff Hbody)
  end.
  unfold bind at 1 in Hbody. rewrite dst_last_key_ok in Hbody by assumption.
  unfold bind at 1 in Hbody. rewrite src_execute_count_ok in Hbody by auto with ff.
  unfold bind at 1 in Hbody. rewrite src_fetchone_ok in Hbody by auto with ff.
  subst w0.
  cbn [src_cursor src_rows dst_visible dst_committed trace set_cursor log hd_error skipn]
    in Hbody.
  assert (Hlk : max_key_opt (dst_visible w) = Some (max_key (dst_visible w))).
  { destruct (dst_visible w); [contradiction | reflexivity]. }
  rewrite Hlk in Hbody.
  match type of Hbody with
  | gaps_loop _ ?sel ?cmp _ _ _ _ _ _ _ ?wl = _ =>
      destruct (gaps_loop_spec sel cmp key_interval (max_key (dst_visible w)) Hs
                  fuel key_start 0 0%Z wl)
        as (w' & new & Hrun & Htr & Hsel & Hbat & Hv & Hc); [auto with ff | exact Hfuel |]
  end.
  cbn [src_cursor src_rows dst_visible dst_committed trace set_cursor log hd_error skipn]
    in Hrun, Htr, Hv, Hc.
  assert (Hval : forall X : nat * Z, (0 + fst X, (0 + snd X)%Z) = X)
    by (intros [a b]; reflexivity).
  rewrite Hval in Hrun. clear Hval.
  rewrite Hrun in Hbody. injection Hbody as <- <-.
  eexists. eexists. split; [reflexivity|].
  split.
  { cbn [trace set_cursor set_visible log close_connections snd].
    rewrite Htr. rewrite <- !app_assoc. cbn [app]. reflexivity. }
  split.
  { cbn [selects flat_map ev_side ev_call app]. fold (selects new). rewrite Hsel.
    unfold scans. cbn [Nat.sub intervals]. rewrite Nat.sub_0_r. reflexivity. }
  split.
  { cbn [batches flat_map ev_call app]. fold (batches new). exact Hbat. }
  cbn [dst_committed set_cursor set_visible close_connections snd]. exact Hc.
Qed.






(* ----------------------------------------------------------------- *)
(** ** search_key_gaps: what the summary adds up to, and what it misses *)








Lemma intervals_bounds size : (0 < size)%Z -> forall n kb b e,
  In (b, e) (intervals size kb n) -> (kb <= b)%Z /\ (e <= kb + Z.of_nat n * size - 1)%Z.
Proof.
  intros Hs. induction n as [|n IH]; intros kb b e Hin; [contradiction|].
  cbn [intervals] in Hin. destruct Hin as [Heq | Hin].
  - injection Heq as <- <-. nia.
  - apply IH in Hin. nia.
Qed.

Lemma gap_report_ext src1 src2 dst : forall ivs,
  (forall b e, In (b, e) ivs -> filter (between b e) src1 = filter (between b e) src2) ->
  gap_report src1 dst ivs = gap_report src2 dst ivs.
Proof.
  induction ivs as [|[b e] ivs IH]; intros H; [reflexivity|].
  cbn [gap_report]. rewrite (H b e) by (left; reflexivity).
  rewrite IH by (intros b' e' Hin; apply H; right; exact Hin). reflexivity.
Qed.

(** X15. The comparison stops with the interval that holds the
    destination's last key, so what the source holds beyond it is not
    seen: adding to the source any rows with keys above the last
    compared interval leaves the summary as it is. *)
Theorem search_key_gaps_blind_above_last_scanned
    fuel source_provider source_table destination_provider
    destination_table key_column key_start key_interval w extra :
  fault_free w ->
  (0 < key_interval)%Z ->
  count_dots source_table = 1 ->
  count_dots destination_table = 1 ->
  dst_visible w <> [] ->
  scans key_interval key_start (max_key (dst_visible w)) <= fuel ->
  (forall r, In r extra ->
             (last_scanned key_interval key_start (max_key (dst_visible w)) < row_key r)%Z) ->
  fst (search_key_gaps fuel source_provider source_table destination_provider
         destination_table key_column key_start key_interval
         (with_source (src_rows w ++ extra) w)) =
  fst (search_key_gaps fuel source_provider source_table destination_provider
         destination_table key_column key_start key_interval w).
Proof.
  intros Hff Hs Hst Hdt Hne Hfuel Hextra.
  destruct (search_key_gaps_spec fuel source_provider source_table destination_provider
              destination_table key_column key_start key_interval w
              Hff Hs Hst Hdt Hne Hfuel) as (w1 & new1 & Hrun1 & _).
  destruct (search_key_gaps_spec fuel source_provider source_table destination_provider
              destination_table key_column key_start key_interval
              (with_source (src_rows w ++ extra) w)
              Hff Hs Hst Hdt Hne Hfuel) as (w2 & new2 & Hrun2 & _).
  rewrite Hrun1, Hrun2. cbn [fst src_rows dst_visible with_source]. f_equal.
  apply gap_report_ext. intros b e Hin.
  apply (intervals_bounds _ Hs) in Hin. destruct Hin as [_ He].
  rewrite filter_app.
  replace (filter (between b e) extra) with (@nil row); [apply app_nil_r|].
  symmetry. clear - Hextra He.
  induction extra as [|r extra IH]; [reflexivity|].
  cbn [filter]. unfold between at 1.
  assert (Hr := Hextra r (or_introl eq_refl)). unfold last_scanned in Hr.
  replace ((b <=? row_key r) && (row_key r <=? e))%Z with false
    by (symmetry; apply andb_false_iff; lia).
  apply IH. intros r' Hin. apply Hextra. right. exact Hin.
Qed.

(** Source and destination with the keys 3 and 12; the source then
    gets the keys 25 and 31, beyond the compared intervals 0-9 and
    10-19. *)
Lemma search_key_gaps_blind_above_last_scanned_witness :
  let w := demo_world (map demo_row [3; 12]%Z) (map demo_row [3; 12]%Z) no_fault in
  fst (search_key_gaps 5 PG "s.src" MSSQL "dbo.dest" "id" 0 10 w) = Val (0, 0%Z) /\
  fst (search_key_gaps 5 PG "s.src" MSSQL "dbo.dest" "id" 0 10
         (with_source (src_rows w ++ map demo_row [25; 31]%Z) w)) =
  fst (search_key_gaps 5 PG "s.src" MSSQL "dbo.dest" "id" 0 10 w).
Proof.
  intros w. split; [vm_compute; reflexivity|].
  apply (search_key_gaps_blind_above_last_scanned
           5 PG "s.src" MSSQL "dbo.dest" "id" 0 10 w (map demo_row [25; 31]%Z)).
  - intros l t; reflexivity.
  - lia.
  - reflexivity.
  - reflexivity.
  - discriminate.
  - vm_compute. lia.
  - intros r [<- | [<- | []]]; vm_compute; reflexivity.
Defined.

(* ----------------------------------------------------------------- *)
(** ** sync_db_2_db: the delete propagation and the reference value *)

Lemma emits_read_conn_type L E :
  emits L E (fun w => (Val (dst_conn_type w), w)).
Proof.
  intros w r w' Hrun. injection Hrun as <- <-.
  split; [exists []; rewrite app_nil_r; auto | discriminate].
Qed.

(** The delete propagation asks the source once and runs one [DELETE]
    at most. *)
Lemma at_most_delete_step l sync_exclusions key_column source_exc_schema source_exc_table
    source_exc_column ref_value dest_table_name :
  l = 587 \/ l = 595 ->
  at_most l (if sync_exclusions : bool then 1 else 0)
    (if sync_exclusions then
       ids_to_del <- hook_get_records 587 Source
                       (source_exc_sql key_column source_exc_schema source_exc_table
                                       source_exc_column ref_value) ;;
       match ids_to_del with
       | [] => ret tt
       | _ :: _ => hook_run 595 Destination (delete_sql dest_table_name key_column ids_to_del)
       end
     else ret tt).
Proof.
  intros Hl. destruct sync_exclusions.
  2:{ apply (at_most_emits l [] []); [apply emits_ret | cbn; tauto]. }
  destruct Hl as [-> | ->].
  - apply (at_most_bind 587 1 0).
    + unfold hook_get_records. apply at_most_db_call. reflexivity.
    + intros ids. apply (at_most_emits 587 [595] ["database error"]);
        [|cbn; intuition discriminate].
      destruct ids; emits_step.
  - apply (at_most_bind 595 0 1).
    + apply (at_most_emits 595 [587] ["database error"]);
        [emits_step | cbn; intuition discriminate].
    + intros ids. destruct ids as [|i ids].
      * eapply at_most_weaken; [apply Nat.le_0_l|].
        apply (at_most_emits 595 [] []); [apply emits_ret | cbn; tauto].
      * unfold hook_run. apply at_most_db_call. reflexivity.
Qed.

(** X17. In every run of [sync_db_2_db], whatever raises, the source is
    asked for deleted keys at most once and at most one [DELETE] is
    run on the destination; with [sync_exclusions] off neither
    happens. *)
Theorem sync_db_2_db_deletes_at_most_once
    fuel table date_column key_column source_schema destination_schema increment_schema
    (sync_exclusions : bool) source_exc_schema source_exc_table source_exc_column chunksize w :
  exists new,
    trace (snd (sync_db_2_db fuel table date_column key_column source_schema
                  destination_schema increment_schema sync_exclusions source_exc_schema
                  source_exc_table source_exc_column chunksize w)) = trace w ++ new /\
    calls_at 587 new <= (if sync_exclusions then 1 else 0) /\
    calls_at 595 new <= (if sync_exclusions then 1 else 0).
Proof.
  assert (H : forall l, l = 587 \/ l = 595 ->
            at_most l (0 + (if sync_exclusions then 1 else 0))
              (sync_db_2_db fuel table date_column key_column source_schema
                 destination_schema increment_schema sync_exclusions source_exc_schema
                 source_exc_table source_exc_column chunksize)).
  { intros l Hl.
    assert (Hq : ~ In l (577 :: 579 :: staging_lines))
      by (destruct Hl as [-> | ->]; cbn; intuition discriminate).
    assert (Hstep : forall {A B} (m : M A) (k : A -> M B) E n,
               emits (577 :: 579 :: staging_lines) E m ->
               (forall a, at_most l (0 + n) (k a)) ->
               at_most l (0 + n) (bind m k)).
    { intros A B m k E n Hm Hk. apply (at_most_bind l 0 (0 + n)); [|exact Hk].
      eapply at_most_emits; [exact Hm | exact Hq]. }
    assert (Hst : forall {A} (m : M A) E,
               emits staging_lines E m -> emits (577 :: 579 :: staging_lines) E m).
    { intros A m E Hm. eapply emits_weaken; [| apply incl_refl | exact Hm].
      do 2 apply incl_tl. apply incl_refl. }
    unfold sync_db_2_db. cbv zeta.
    eapply (Hstep _ _ _ _ sync_messages); [apply emits_read_conn_type|]. intros conn_type.
    eapply Hstep; [apply Hst, emits_get_table_cols_name|]. intros col_list.
    eapply (Hstep _ _ _ _ sync_messages); [destruct conn_type; emits_step|].
    intros destination_provider.
    eapply Hstep; [apply Hst, emits_table_rows_count|]. intros dest_rows_count.
    destruct (is_zero dest_rows_count).
    { eapply at_most_weaken; [apply Nat.le_0_l|].
      apply (at_most_emits l [] [empty_destination]); [|cbn; tauto].
      apply emits_raise. left. reflexivity. }
    eapply Hstep; [apply Hst, emits_build_filter_condition|].
    intros [ref_value where_condition].
    eapply Hstep; [apply Hst, emits_table_rows_count|]. intros _.
    eapply Hstep.
    { apply Hst. eapply emits_weaken; [| |apply emits_copy_db_to_db];
        [unfold staging_lines; auto 20 using incl_refl, incl_appl, incl_appr
        | apply incl_refl]. }
    intros _.
    eapply (Hstep _ _ _ _ sync_messages); [destruct conn_type; emits_step|]. intros sql.
    eapply (Hstep _ _ _ _ sync_messages); [emits_step|]. intros _.
    destruct (_build_incremental_sqls _ _ _ _) as [updates_sql inserts_sql].
    eapply (Hstep _ _ _ _ sync_messages); [emits_step|]. intros _.
    eapply (Hstep _ _ _ _ sync_messages); [emits_step|]. intros _.
    apply at_most_delete_step. exact Hl. }
  destruct (sync_db_2_db _ _ _ _ _ _ _ _ _ _ _ _ w) as [r w'] eqn:Hrun.
  cbn [snd].
  destruct (H 587 (or_introl eq_refl) _ _ _ Hrun) as (new & Htr & H1).
  destruct (H 595 (or_intror eq_refl) _ _ _ Hrun) as (new2 & Htr2 & H2).
  rewrite Htr in Htr2. apply app_inv_head in Htr2. subst new2.
  exists new. split; [exact Htr|]. split; [exact H1 | exact H2].
Qed.

(** X18. The reference value of a date column has to be a timestamp.
    When [date_column] is given and the destination, although not
    empty, answers its [MAX] with anything else, such as the NULL of a
    column that was never filled, a run of [sync_db_2_db] without
    faults raises an [AttributeError] after the column probe, the row
    count and the [MAX] query: nothing is staged and nothing merged. *)
Theorem sync_db_2_db_date_maximum_not_a_timestamp
    fuel table date_column key_column source_schema destination_schema increment_schema
    sync_exclusions source_exc_schema source_exc_table source_exc_column chunksize w :
  let dest := destination_schema +++ "." +++ table in
  let max_sql := "SELECT MAX(" +++ fmt date_column +++ ") FROM " +++ dest in
  fault_free w ->
  dst_conn_type w <> other_conn ->
  is_zero (hook_first w Destination (count_sql destination_schema table)) = false ->
  truthy date_column = true ->
  (forall d, hook_first w Destination max_sql <> VDatetime d) ->
  exists w',
    sync_db_2_db fuel table date_column key_column source_schema destination_schema
      increment_schema sync_exclusions source_exc_schema source_exc_table
      source_exc_column chunksize w = (Exc "AttributeError", w') /\
    trace w' = trace w ++
      [mkEv 143 Destination
         (Execute ("SELECT * FROM " +++ destination_schema +++ "." +++
                   table +++ " WHERE 1=2") []) true;
       mkEv 362 Destination (GetFirst (count_sql destination_schema table)) true;
       mkEv 412 Destination (GetFirst max_sql) true] /\
    dst_committed w' = dst_committed w.
Proof.
  intros dest max_sql Hff Hct Hz Hdate Hv.
  unfold sync_db_2_db. cbv zeta. fold dest.
  unfold bind at 1. cbv beta iota. unfold bind at 1.
  assert (Hcols : get_table_cols_name destination_schema table w =
                  (Val (dst_columns w),
                   log (mkEv 143 Destination
                          (Execute ("SELECT * FROM " +++ destination_schema +++ "." +++
                                    table +++ " WHERE 1=2") []) true) w)).
  { unfold get_table_cols_name. destruct (dst_conn_type w) eqn:E; try congruence;
      rewrite db_call_ok by assumption; reflexivity. }
  rewrite Hcols. set (w1 := log _ w).
  assert (Hff1 : fault_free w1) by (subst w1; auto with ff).
  assert (Hprov : exists p,
             match dst_conn_type w with
             | mssql => ret MSSQL
             | postgres => ret PG
             | other_conn => raise "UnboundLocalError"
             end = ret p).
  { destruct (dst_conn_type w) eqn:E.
    - exists MSSQL. reflexivity.
    - exists PG. reflexivity.
    - congruence. }
  destruct Hprov as (p & ->).
  unfold bind at 1. unfold ret at 1.
  unfold bind at 1. unfold _table_rows_count at 1.
  rewrite hook_get_first_dst_ok by assumption.
  subst w1. cbn [hook_first log].
  match goal with
  | |- context [is_zero ?x] => replace (is_zero x) with false by (symmetry; exact Hz)
  end.
  set (w2 := log _ (log _ w)).
  assert (Hff2 : fault_free w2) by (subst w2; auto with ff).
  unfold bind at 1. unfold _build_filter_condition, bind. rewrite Hdate.
  rewrite hook_get_first_dst_ok by assumption. subst w2. cbn [hook_first log].
  fold dest. fold max_sql.
  destruct (hook_first w Destination max_sql) as [| z | s | d] eqn:Hval;
    try (exfalso; exact (Hv d eq_refl));
    (eexists; split; [reflexivity|]; split; [|reflexivity]);
    cbn [trace log]; rewrite <- !app_assoc; reflexivity.
Qed.

(** A destination whose row count is 10 and whose [MAX] is NULL. *)
Lemma sync_db_2_db_date_maximum_not_a_timestamp_witness :
  let w := mkWorld four_rows [] ["id"; "name"] mssql [] []
             (fun _ sql => if prefix "SELECT COUNT" sql then VInt 10 else VNull)
             (fun _ _ => []) no_fault (fun t => Z.of_nat t) [] in
  exists w',
    sync_db_2_db 4 "t" (Some "dataalteracao") "id" "src" "dbo" (Some "stg") false
      None None None 2 w = (Exc "AttributeError", w') /\
    trace w' = trace w ++
      [mkEv 143 Destination (Execute ("SELECT * FROM " +++ "dbo" +++ "." +++
                                      "t" +++ " WHERE 1=2") []) true;
       mkEv 362 Destination (GetFirst (count_sql "dbo" "t")) true;
       mkEv 412 Destination
         (GetFirst ("SELECT MAX(" +++ fmt (Some "dataalteracao") +++ ") FROM " +++
                    ("dbo" +++ "." +++ "t"))) true] /\
    dst_committed w' = dst_committed w.
Proof.
  intros w.
  apply (sync_db_2_db_date_maximum_not_a_timestamp 4 "t" (Some "dataalteracao") "id" "src"
           "dbo" (Some "stg") false None None None 2 w).
  - intros l t; reflexivity.
  - discriminate.
  - reflexivity.
  - reflexivity.
  - intros d. vm_compute. discriminate.
Defined.


(* ----------------------------------------------------------------- *)
(** ** utils/date.py: the last day of a month *)

Lemma days_in_month_bounds y m : (28 <= days_in_month y m <= 31)%Z.
Proof.
  unfold days_in_month.
  destruct (m =? 2)%Z; [destruct (is_leap y); lia|].
  destruct ((m =? 4) || (m =? 6) || (m =? 9) || (m =? 11))%Z; lia.
Qed.

(** X20. [last_day_of_month] of a date is the last day of its month:
    same year, same month, and the day is the number of days of that
    month, 29 for the February of a leap year.  The result is a date,
    and the function leaves it as it is.  The one exception is
    December 9999: there the month added on the way leaves the range
    of [date], and the function raises although the last day of that
    month exists. *)
Theorem last_day_of_month_spec (the_date : date) :
  valid_date the_date ->
  let last := mkDate (year_of the_date) (month_of the_date)
                     (days_in_month (year_of the_date) (month_of the_date)) in
  valid_date last /\
  if ((year_of the_date =? 9999) && (month_of the_date =? 12))%Z
  then last_day_of_month the_date = Exc "ValueError"
  else last_day_of_month the_date = Val last /\
       last_day_of_month last = Val last.
Proof.
  intros (Hy & Hm & Hd) last.
  pose proof (days_in_month_bounds (year_of the_date) (month_of the_date)) as Hb.
  split.
  { unfold valid_date, last. cbn [year_of month_of day_of]. lia. }
  assert (Hgen : forall d,
             (1 <= year_of d <= 9999)%Z -> (1 <= month_of d <= 12)%Z ->
             ((year_of d =? 9999) && (month_of d =? 12))%Z = false ->
             last_day_of_month d =
             Val (mkDate (year_of d) (month_of d) (days_in_month (year_of d) (month_of d)))).
  { intros d Hyd Hmd Hc. unfold last_day_of_month, plus_one_month.
    destruct (month_of d + 1 >? 12)%Z eqn:Hroll.
    - apply Z.gtb_lt in Hroll. assert (Hm12 : month_of d = 12%Z) by lia.
      rewrite Hm12 in Hc. rewrite andb_true_r in Hc. apply Z.eqb_neq in Hc.
      replace (year_of d + 1 >? 9999)%Z with false by (symmetry; rewrite Z.gtb_ltb; apply Z.ltb_ge; lia).
      unfold minus_one_day, replace_day_1. cbn [year_of month_of day_of].
      replace (1 <? 1)%Z with false by reflexivity.
      replace (1 <? month_of d + 1 - 12)%Z with false by (symmetry; apply Z.ltb_ge; lia).
      replace (1 <? year_of d + 1)%Z with true by (symmetry; apply Z.ltb_lt; lia).
      rewrite Hm12. f_equal. f_equal. lia.
    - replace (year_of d >? 9999)%Z with false by (symmetry; rewrite Z.gtb_ltb; apply Z.ltb_ge; lia).
      unfold minus_one_day, replace_day_1. cbn [year_of month_of day_of].
      replace (1 <? 1)%Z with false by reflexivity.
      replace (1 <? month_of d + 1)%Z with true by (symmetry; apply Z.ltb_lt; lia).
      f_equal. f_equal; [lia | f_equal; lia]. }
  destruct ((year_of the_date =? 9999) && (month_of the_date =? 12))%Z eqn:Hc.
  - apply andb_true_iff in Hc. destruct Hc as [Hy9 Hm12].
    apply Z.eqb_eq in Hy9. apply Z.eqb_eq in Hm12.
    unfold last_day_of_month, plus_one_month. rewrite Hy9, Hm12. reflexivity.
  - split; [apply Hgen; assumption|].
    apply (Hgen last); unfold last; cbn [year_of month_of]; assumption.
Qed.

(** 31 January 2024, a leap year: the February on the way has 29 days;
    and 15 February 2023. *)
Lemma last_day_of_month_spec_witness :
  last_day_of_month (mkDate 2024 1 31) = Val (mkDate 2024 1 31) /\
  (valid_date (mkDate 2023 2 28) /\
   (last_day_of_month (mkDate 2023 2 15) = Val (mkDate 2023 2 28) /\
    last_day_of_month (mkDate 2023 2 28) = Val (mkDate 2023 2 28))).
Proof.
  split; [reflexivity|].
  apply (last_day_of_month_spec (mkDate 2023 2 15)).
  unfold valid_date. cbn. lia.
Defined.

(** X21. [last_day_of_last_month] of a date is the last day of the
    month before: the 31st of December of the year before for a date
    in January, else the last day of the previous month of the same
    year.  For a date in January of the year 1 there is no such date,
    and the function raises. *)
Theorem last_day_of_last_month_spec (the_date : date) :
  valid_date the_date ->
  last_day_of_last_month the_date =
  if (month_of the_date =? 1)%Z
  then if (year_of the_date =? 1)%Z then Exc "OverflowError"
       else Val (mkDate (year_of the_date - 1) 12 (days_in_month (year_of the_date - 1) 12))
  else Val (mkDate (year_of the_date) (month_of the_date - 1)
                   (days_in_month (year_of the_date) (month_of the_date - 1))).
Proof.
  intros (Hy & Hm & Hd).
  unfold last_day_of_last_month, minus_one_day, replace_day_1. cbn [year_of month_of day_of].
  replace (1 <? 1)%Z with false by reflexivity.
  destruct (Z.eqb_spec (month_of the_date) 1) as [Hm1 | Hm1].
  - replace (1 <? month_of the_date)%Z with false by (symmetry; apply Z.ltb_ge; lia).
    destruct (Z.eqb_spec (year_of the_date) 1) as [Hy1 | Hy1].
    + replace (1 <? year_of the_date)%Z with false by (symmetry; apply Z.ltb_ge; lia).
      reflexivity.
    + replace (1 <? year_of the_date)%Z with true by (symmetry; apply Z.ltb_lt; lia).
      reflexivity.
  - replace (1 <? month_of the_date)%Z with true by (symmetry; apply Z.ltb_lt; lia).
    reflexivity.
Qed.

(** 10 March 2024: 29 February; and 5 January of the year 1. *)
Lemma last_day_of_last_month_spec_witness :
  last_day_of_last_month (mkDate 2024 3 10) = Val (mkDate 2024 2 29) /\
  last_day_of_last_month (mkDate 1 1 5) = Exc "OverflowError".
Proof.
  split.
  - apply (last_day_of_last_month_spec (mkDate 2024 3 10)). unfold valid_date. cbn. lia.
  - apply (last_day_of_last_month_spec (mkDate 1 1 5)). unfold valid_date. cbn. lia.
Defined.

(* ----------------------------------------------------------------- *)
(** ** DbConnection: the provider in lower case *)

(** X22. [DbConnection] checks its provider in upper case when it is
    built and compares it as it was given when the connection is
    opened.  A provider that is one of MSSQL, PG and MYSQL only up to
    the case of its letters is therefore accepted by [__init__], and
    [__enter__] then opens nothing and raises an [AttributeError],
    whether the database can be reached or not. *)
Theorem DbConnection_provider_case (provider : string) (connects : bool) :
  In (upper provider) providers ->
  ~ In provider providers ->
  DbConnection_init provider = Val provider /\
  DbConnection_enter provider connects = Exc "AttributeError".
Proof.
  intros Hup Hno. split.
  - unfold DbConnection_init.
    replace (existsb (String.eqb (upper provider)) providers) with true; [reflexivity|].
    symmetry. apply existsb_exists. exists (upper provider).
    split; [exact Hup | apply String.eqb_refl].
  - unfold DbConnection_enter.
    destruct (String.eqb_spec provider "MSSQL") as [-> | _];
      [exfalso; apply Hno; cbn; tauto|].
    destruct (String.eqb_spec provider "PG") as [-> | _];
      [exfalso; apply Hno; cbn; tauto|].
    destruct (String.eqb_spec provider "MYSQL") as [-> | _];
      [exfalso; apply Hno; cbn; tauto|].
    reflexivity.
Qed.

(** The provider [mssql]. *)
Lemma DbConnection_provider_case_witness :
  DbConnection_init "mssql" = Val "mssql" /\
  DbConnection_enter "mssql" true = Exc "AttributeError".
Proof.
  apply (DbConnection_provider_case "mssql" true).
  - vm_compute. tauto.
  - cbn. intuition discriminate.
Defined.

(* ----------------------------------------------------------------- *)
(** ** A copy followed by the comparison *)



